(** * tsh: a tiny shell with job control

    A shallow embedding of [tsh.c].  The job table, the job-list helper
    routines, the signal handlers and the built-in [bg]/[fg] command are
    translated function by function; the control loop and the handlers
    that preempt it are put together as a transition system whose labels
    are the events the operating system delivers to the shell.

    Conventions of the embedding:
    - C [int], [pid_t] and [long] values are integers of [Z].  The only
      arithmetic on them is [nextjid++], [maxjid + 1] and the digit loop of
      [sio_ltoa]; signed overflow is undefined in C and is outside the model.
      The result of [atoi] is an [int]: it is reduced to 32 bits;
    - the array [jobs[MAXJOBS]] is a list of slots; [jobs[i]] is list lookup
      and a store to [jobs[i]] is list insertion at index [i];
    - a [JobP] returned by a lookup is the index of the slot it points to,
      [NULL] is [None];
    - a C string is a [string]; [cmdline[0] = '\0'] makes it empty. *)

From Stdlib Require Import ZArith List String Ascii Bool Lia.
From Stdlib Require Import DecimalString.
From Stdlib Require DecimalPos.
From stdpp Require Import base tactics option list strings.

Local Open Scope Z_scope.

(** ** Constants and the job record *)

Definition MAXJOBS : nat := 16.

(** The job states [UNDEF], [FG], [BG], [ST]. *)
Inductive jstate : Type := UNDEF | FG | BG | ST.

#[global] Instance jstate_eq_dec : EqDecision jstate.
Proof. solve_decision. Defined.

Record Job : Type := mkJob {
  pid : Z;          (* job PID *)
  jid : Z;          (* job ID [1, 2, ...] *)
  state : jstate;   (* UNDEF, FG, BG, or ST *)
  cmdline : string  (* command line *)
}.

(** Signal numbers on x86(-64)/Linux, the platform of the [signame] table. *)
Definition SIGINT : Z := 2.
Definition SIGCONT : Z := 18.
Definition SIGTSTP : Z := 20.

Definition signame : list string :=
  [ "Signal 0"; "HUP"; "INT"; "QUIT"; "ILL"; "TRAP"; "ABRT"; "BUS"; "FPE";
    "KILL"; "USR1"; "SEGV"; "USR2"; "PIPE"; "ALRM"; "TERM"; "STKFLT"; "CHLD";
    "CONT"; "STOP"; "TSTP"; "TTIN"; "TTOU"; "URG"; "XCPU"; "XFSZ"; "VTALRM";
    "PROF"; "WINCH"; "IO"; "PWR"; "Signal 31" ]%string.

(** The newline character; Rocq string literals have no escapes. *)
Definition nl : string := String (ascii_of_nat 10) EmptyString.

(** ** The shell's global state and its effects *)

(** What the shell does to the outside world: buffered [printf] output,
    raw [write]s issued by the [sio_] routines, and [kill] calls. *)
Inductive event : Type :=
| Printf (s : string)
| Write (s : string)
| Kill (target : Z) (sig : Z).

(** The globals [jobs], [nextjid], [verbose], and the trace of effects. *)
Record world : Type := World {
  jobs : list Job;
  nextjid : Z;
  verbose : bool;
  out : list event
}.

Definition set_jobs (js : list Job) (w : world) : world :=
  World js (nextjid w) (verbose w) (out w).
Definition set_nextjid (n : Z) (w : world) : world :=
  World (jobs w) n (verbose w) (out w).
Definition add_out (e : event) (w : world) : world :=
  World (jobs w) (nextjid w) (verbose w) (out w ++ [e]).

(** A call either returns, terminates the shell ([exit]/[_exit]), or
    dereferences a null pointer. *)
Inductive outcome (A : Type) : Type :=
| Ret (a : A) (w : world)
| Exit (code : Z) (w : world)
| Fault (w : world).
Arguments Ret {A} a w.
Arguments Exit {A} code w.
Arguments Fault {A} w.

Definition M (A : Type) : Type := world → outcome A.

#[global] Instance M_ret : MRet M := λ A a w, Ret a w.
#[global] Instance M_bind : MBind M := λ A B f m w,
  match m w with
  | Ret a w' => f a w'
  | Exit c w' => Exit c w'
  | Fault w' => Fault w'
  end.

Definition gets {A} (f : world → A) : M A := λ w, Ret (f w) w.
Definition modify (f : world → world) : M unit := λ w, Ret tt (f w).
Definition emit (e : event) : M unit := modify (add_out e).
(** A store into the job table. *)
Definition update_jobs (f : list Job → list Job) : M unit :=
  modify (λ w, set_jobs (f (jobs w)) w).
Definition exit {A} (code : Z) : M A := λ w, Exit code w.
Definition fault {A} : M A := λ w, Fault w.
Definition when (b : bool) (m : M unit) : M unit := if b then m else mret tt.

(** [printf("%d", n)]: the decimal numeral of [n]. *)
Definition fmt_d (n : Z) : string := NilZero.string_of_int (Z.to_int n).

Definition printf (s : string) : M unit := emit (Printf s).

(** ** The job list helper routines *)

Definition clearjob (job : Job) : Job :=
  {| pid := 0; jid := 0; state := UNDEF; cmdline := "" |}.

Definition initjobs (js : list Job) : list Job := clearjob <$> js.

Fixpoint maxjid_loop (max : Z) (js : list Job) : Z :=
  match js with
  | [] => max
  | J :: rest => maxjid_loop (if jid J >? max then jid J else max) rest
  end.

Definition maxjid (js : list Job) : Z := maxjid_loop 0 js.

(** The scans [for (i = 0; i < MAXJOBS; i++) if (jobs[i].f == v) ...] stop at
    the first matching slot; [list_find] returns that slot and its index. *)
Definition first_pid (js : list Job) (p : Z) : option (nat * Job) :=
  list_find (λ J, pid J = p) js.

Definition first_jid (js : list Job) (j : Z) : option (nat * Job) :=
  list_find (λ J, jid J = j) js.

Definition addjob (p : Z) (st : jstate) (cmd : string) : M bool :=
  if p <? 1 then mret false
  else
    js ← gets jobs;
    match first_pid js 0 with
    | Some (i, _) =>
        nj ← gets nextjid;
        update_jobs <[i := mkJob p nj st cmd]>;;
        modify (set_nextjid (if nj + 1 >? Z.of_nat MAXJOBS then 1 else nj + 1));;
        v ← gets verbose;
        when v (printf ("Added job [" +:+ fmt_d nj +:+ "] " +:+ fmt_d p
                        +:+ " " +:+ cmd +:+ nl));;
        mret true
    | None =>
        printf ("Tried to create too many jobs" +:+ nl);;
        mret false
    end.

Definition deletejob (p : Z) : M bool :=
  if p <? 1 then mret false
  else
    js ← gets jobs;
    match first_pid js p with
    | Some (i, J) =>
        update_jobs <[i := clearjob J]>;;
        m ← gets (λ w, maxjid (jobs w));
        modify (set_nextjid (m + 1));;
        mret true
    | None => mret false
    end.

Definition fgpid (js : list Job) : Z :=
  match list_find (λ J, state J = FG) js with
  | Some (_, J) => pid J
  | None => 0
  end.

Definition getjobpid (js : list Job) (p : Z) : option nat :=
  if p <? 1 then None else fst <$> first_pid js p.

Definition getjobjid (js : list Job) (j : Z) : option nat :=
  if j <? 1 then None else fst <$> first_jid js j.

Definition pid2jid (js : list Job) (p : Z) : Z :=
  if p <? 1 then 0
  else match first_pid js p with
       | Some (_, J) => jid J
       | None => 0
       end.

Definition state_label (i : nat) (s : jstate) : string :=
  match s with
  | BG => "Running "
  | FG => "Foreground "
  | ST => "Stopped "
  | UNDEF => "listjobs: Internal error: job[" +:+ fmt_d (Z.of_nat i)
             +:+ "].state=0 "
  end.

Fixpoint listjobs_loop (i : nat) (js : list Job) : M unit :=
  match js with
  | [] => mret tt
  | J :: rest =>
      when (negb (pid J =? 0))
        (printf ("[" +:+ fmt_d (jid J) +:+ "] (" +:+ fmt_d (pid J) +:+ ") ");;
         printf (state_label i (state J));;
         printf (cmdline J));;
      listjobs_loop (S i) rest
  end.

(** [listjobs] when no handler runs while it does: every slot is read once.
    The reads of the [volatile] table with a handler run between them are in
    [listjobs_racy] below. *)
Definition listjobs : M unit := js ← gets jobs; listjobs_loop 0 js.

(** ** Signal-safe output: the [sio_] routines *)

Definition sio_strlen (s : string) : nat := String.length s.

(** The in-place swap loop of [sio_reverse] reverses the characters. *)
Definition sio_reverse (s : string) : string :=
  string_of_list_ascii (rev (list_ascii_of_string s)).

(** The character stored by [s[i++] = (c = v % b) < 10 ? c + '0' : c - 10 + 'a'];
    the store into a [char] keeps the low eight bits. *)
Definition sio_digit (c : Z) : ascii :=
  ascii_of_N (Z.to_N ((if c <? 10 then c + 48 else c - 10 + 97) mod 256)).

(** The [do ... while ((v /= b) > 0)] loop; C's [%] and [/] truncate towards
    zero.  Each round with [v > 0] and [b >= 2] lowers [v], so [Z.to_nat v]
    rounds of fuel are never used up (lemma [sio_ltoa_loop_fuel]). *)
Fixpoint sio_ltoa_loop (fuel : nat) (v b : Z) : list ascii :=
  let d := sio_digit (Z.rem v b) in
  let v' := Z.quot v b in
  match fuel with
  | S f => if v' >? 0 then d :: sio_ltoa_loop f v' b else [d]
  | O => [d]
  end.

Definition sio_ltoa (v b : Z) : string :=
  sio_reverse (string_of_list_ascii (sio_ltoa_loop (Z.to_nat v) v b)).

Definition sio_puts (s : string) : M unit := emit (Write s).

Definition sio_putl (v : Z) : M unit := sio_puts (sio_ltoa v 10).

(** ** Wait statuses

    The macros of [<sys/wait.h>] as glibc defines them on Linux, on the
    [int] filled in by [waitpid]. *)

Definition WTERMSIG (status : Z) : Z := Z.land status 127.
Definition WIFEXITED (status : Z) : bool := WTERMSIG status =? 0.
(** [((signed char) ((status & 0x7f) + 1) >> 1) > 0] *)
Definition WIFSIGNALED (status : Z) : bool :=
  let c := Z.land status 127 + 1 in
  Z.shiftr (if c >=? 128 then c - 256 else c) 1 >? 0.
Definition WIFSTOPPED (status : Z) : bool := Z.land status 255 =? 127.
Definition WSTOPSIG (status : Z) : Z := Z.shiftr (Z.land status 65280) 8.

(** ** The signal handlers *)

Definition set_state (i : nat) (s : jstate) (js : list Job) : list Job :=
  alter (λ J, mkJob (pid J) (jid J) s (cmdline J)) i js.

(** One round of the [while ((pid = waitpid(-1, &status, WNOHANG | WUNTRACED)) > 0)]
    loop of [sigchld_handler], for the child [p] reported with [status]. *)
Definition sigchld_round (p status : Z) : M unit :=
  currjob ← gets (λ w, getjobpid (jobs w) p);
  when (WIFEXITED status) (deletejob p;; mret tt);;
  when (WIFSIGNALED status)
    (sio_puts "Job [";;
     j ← gets (λ w, pid2jid (jobs w) p);
     sio_putl j;;
     sio_puts "] (";;
     sio_putl p;;
     sio_puts ") terminated by signal SIGINT";;
     sio_puts nl;;
     deletejob p;;
     mret tt);;
  when (WIFSTOPPED status)
    (match currjob with
     | Some i => update_jobs (set_state i ST)
     | None => fault
     end;;
     sio_puts "Job [";;
     j ← gets (λ w, pid2jid (jobs w) p);
     sio_putl j;;
     sio_puts "] (";;
     sio_putl p;;
     sio_puts ") stopped by signal SIG";;
     match signame !! Z.to_nat (WSTOPSIG status) with
     | Some name => sio_puts name
     | None => fault
     end;;
     sio_puts nl).

(** [reaped] lists what the successive [waitpid] calls return; the loop
    ends at the first result that is not positive, or when none is left. *)
Fixpoint sigchld_handler (reaped : list (Z * Z)) : M unit :=
  match reaped with
  | [] => mret tt
  | (p, status) :: rest =>
      if p >? 0 then sigchld_round p status;; sigchld_handler rest
      else mret tt
  end.

Definition sigint_handler : M unit :=
  p ← gets (λ w, fgpid (jobs w));
  when (negb (p =? 0)) (emit (Kill (- p) SIGINT)).

Definition sigtstp_handler : M unit :=
  p ← gets (λ w, fgpid (jobs w));
  when (negb (p =? 0)) (emit (Kill (- p) SIGTSTP)).

Definition sigquit_handler : M unit :=
  sio_puts ("Terminating after receipt of SIGQUIT signal" +:+ nl);;
  exit 1.

(** ** The built-in [bg] and [fg] commands

    [isdigit] and [atoi] are the C library's.  [atoi(s)] is glibc's
    [(int) strtol(s, NULL, 10)] with a 64-bit [long] and a 32-bit [int]:
    [strtol] skips white space, reads an optional sign and then the longest
    run of decimal digits, and answers [LONG_MAX] or [LONG_MIN] for a numeral
    beyond the range of [long]; the conversion to [int] keeps the low 32
    bits.  So [atoi] of 4294967296 is 0 and [atoi] of 4294967396 is 100. *)

Definition INT_MAX : Z := 2147483647.
Definition LONG_MAX : Z := 9223372036854775807.
Definition LONG_MIN : Z := - LONG_MAX - 1.

Definition code (c : ascii) : Z := Z.of_N (N_of_ascii c).

Definition isdigit (c : ascii) : bool := (48 <=? code c) && (code c <=? 57).

Definition isspace (c : ascii) : bool :=
  (code c =? 32) || ((9 <=? code c) && (code c <=? 13)).

Fixpoint atoi_digits (acc : Z) (s : string) : Z :=
  match s with
  | String c rest =>
      if isdigit c then atoi_digits (10 * acc + (code c - 48)) rest else acc
  | EmptyString => acc
  end.

Fixpoint atoi_skip (s : string) : string :=
  match s with
  | String c rest => if isspace c then atoi_skip rest else s
  | EmptyString => s
  end.

(** The integer that the numeral at the head of [s] denotes. *)
Definition decimal (s : string) : Z :=
  match atoi_skip s with
  | String "-" rest => - atoi_digits 0 rest
  | String "+" rest => atoi_digits 0 rest
  | t => atoi_digits 0 t
  end.

(** [strtol(s, NULL, 10)] *)
Definition strtol (s : string) : Z := Z.max LONG_MIN (Z.min LONG_MAX (decimal s)).

(** The conversion of a [long] to [int]. *)
Definition to_int (z : Z) : Z := (z + 2 ^ 31) mod 2 ^ 32 - 2 ^ 31.

Definition atoi (s : string) : Z := to_int (strtol s).

(** [s[n]]; the terminating NUL when [n] is the length of [s]. *)
Definition char_at (s : string) (n : nat) : ascii :=
  default Ascii.zero (String.get n s).

(** [&s[1]] *)
Definition from_1 (s : string) : string :=
  match s with
  | String _ rest => rest
  | EmptyString => EmptyString
  end.

(** [argv[0]] as [printf("%s")] and [strcmp] see it. *)
Definition argv0 (argv : list string) : string := default EmptyString (argv !! 0%nat).

Definition msg_missing (cmd : string) : string :=
  cmd +:+ " command requires PID or %jobid argument" +:+ nl.
Definition msg_malformed (cmd : string) : string :=
  cmd +:+ ": argument must be a PID or %jobid" +:+ nl.
Definition msg_nojob (tok : string) : string :=
  tok +:+ ": No such job" +:+ nl.
Definition msg_noproc (tok : string) : string :=
  "(" +:+ tok +:+ "): No such process" +:+ nl.

(** [unix_error(msg)]; [err] is the text of [strerror(errno)]. *)
Definition unix_error {A} (msg err : string) : M A :=
  printf (msg +:+ ": " +:+ err +:+ nl);; exit 1.

(** [do_bgfg], first part: the argument checks and the look-up of [currjob].
    [None] is the early [return] after an error message. *)
Definition do_bgfg_lookup (argv : list string) : M (option nat) :=
  match argv !! 1%nat with
  | None => printf (msg_missing (argv0 argv));; mret None
  | Some tok =>
      js ← gets jobs;
      if Ascii.eqb (char_at tok 0) "%" then
        if negb (isdigit (char_at tok 1)) then
          printf (msg_malformed (argv0 argv));; mret None
        else
          match getjobjid js (atoi (from_1 tok)) with
          | None => printf (msg_nojob tok);; mret None
          | Some i => mret (Some i)
          end
      else if negb (atoi tok =? 0) then
        match getjobpid js (atoi tok) with
        | None => printf (msg_noproc tok);; mret None
        | Some i => mret (Some i)
        end
      else
        printf (msg_malformed (argv0 argv));; mret None
  end.

(** Reading a field through [currjob]: the pointer always points into the
    table, so the look-up cannot fail on a table that holds slot [i]. *)
Definition deref (i : nat) : M Job :=
  js ← gets jobs;
  match js !! i with
  | Some J => mret J
  | None => fault
  end.

(** [do_bgfg], second part: [if (currjob->state == ST) kill(-currjob->pid, SIGCONT)].
    [kill_err] is [None] when [kill] returns 0 and the text of
    [strerror(errno)] when it fails. *)
Definition do_bgfg_cont (i : nat) (kill_err : option string) : M unit :=
  J ← deref i;
  when (bool_decide (state J = ST))
    (emit (Kill (- pid J) SIGCONT);;
     match kill_err with
     | Some err => unix_error "kill call failed" err
     | None => mret tt
     end).

(** [do_bgfg], third part: the store [currjob->state = FG] or
    [currjob->state = BG], chosen by [strcmp] on [argv[0]]. *)
Definition do_bgfg_store (argv : list string) (i : nat) : M unit :=
  if String.eqb (argv0 argv) "fg" then
    update_jobs (set_state i FG)
  else if String.eqb (argv0 argv) "bg" then
    update_jobs (set_state i BG)
  else mret tt.

(** The acknowledgement [printf("[%d] (%d) %s", pid2jid(pid), pid, cmdline)]. *)
Definition ack (js : list Job) (p : Z) (cmd : string) : string :=
  "[" +:+ fmt_d (pid2jid js p) +:+ "] (" +:+ fmt_d p +:+ ") " +:+ cmd.

(** ** The shell as a transition system

    The control loop ([main], [eval], [builtin_cmd], [do_bgfg], [waitfg]) is
    cut at the program points where a handler can run between two accesses
    to the job table of which one is a store or a test that decides what the
    loop does next.  [listjobs] only prints and is one step here; what it
    prints when a handler runs between its reads is in [listjobs_racy].  In
    [eval] SIGCHLD is blocked from before [fork] until
    after [addjob], so fork-and-register is one step.  [sigint_handler] and
    [sigtstp_handler] only read the table, and SIGCHLD is blocked while its
    own handler runs, so a run of a handler is one step as well. *)

Inductive ctl : Type :=
| Prompt                                    (* main: about to read a command line *)
| BgfgFound (argv : list string) (i : nat)  (* do_bgfg: currjob = &jobs[i]; before the test for ST *)
| BgfgStore (argv : list string) (i : nat)  (* do_bgfg: before the store to currjob->state *)
| BgfgStored (argv : list string) (i : nat) (* do_bgfg: after the store *)
| AckBg (p : Z) (cmd : string)              (* eval: background job registered; before printf *)
| WaitFg (p : Z)                            (* waitfg(p): at the test of its loop *)
| Exited (code : Z)                         (* the shell has terminated *)
| Crashed.                                  (* null pointer dereference *)

Inductive label : Type :=
| Line (argv : list string) (bg : bool) (cmd : string) (child : Z)
    (* a command line [cmd] is read and parsed into [argv] and [bg];
       [child] is what [fork] returns if [eval] gets to call it *)
| Eof                                       (* end of file on stdin *)
| Go (kill_err : option string)             (* the control loop runs to its next program point *)
| Chld (reaped : list (Z * Z))              (* SIGCHLD; the results of [waitpid] *)
| Int                                       (* SIGINT *)
| Tstp                                      (* SIGTSTP *)
| Quit.                                     (* SIGQUIT *)

(** [do_bgfg] up to its first program point: back at the prompt after an
    error message, or holding [currjob]. *)
Definition do_bgfg (argv : list string) : M ctl :=
  r ← do_bgfg_lookup argv;
  mret (match r with Some i => BgfgFound argv i | None => Prompt end).

(** [builtin_cmd]: [None] is the [return (false)] for a command that is not
    built in; otherwise the built-in command runs. *)
Definition builtin_cmd (argv : list string) : option (M ctl) :=
  if String.eqb (argv0 argv) "quit" then Some (exit 0)
  else if String.eqb (argv0 argv) "jobs" then Some (listjobs;; mret Prompt)
  else if String.eqb (argv0 argv) "bg" then Some (do_bgfg argv)
  else if String.eqb (argv0 argv) "fg" then Some (do_bgfg argv)
  else None.

(** The test of the loop of [waitfg(p)]: return when [p] is no longer the
    foreground job, or sleep in [sigsuspend] until a handler has run. *)
Definition waitfg (p : Z) : M ctl :=
  q ← gets (λ w, fgpid (jobs w));
  mret (if q =? p then WaitFg p else Prompt).

(** [eval] on a parsed line, up to the first program point after it.  [None]
    is the child's side of [fork], which leaves the shell. *)
Definition eval (argv : list string) (bg : bool) (cmd : string) (child : Z)
  : option (M ctl) :=
  match argv with
  | [] => Some (mret Prompt)
  | _ :: _ =>
      match builtin_cmd argv with
      | Some m => Some m
      | None =>
          if child =? 0 then None
          else if negb bg then Some (addjob child FG cmd;; mret (WaitFg child))
          else Some (addjob child BG cmd;; mret (AckBg child cmd))
      end
  end.

(** The control loop's next move from program point [c]. *)
Definition advance (c : ctl) (kill_err : option string) : option (M ctl) :=
  match c with
  | BgfgFound argv i => Some (do_bgfg_cont i kill_err;; mret (BgfgStore argv i))
  | BgfgStore argv i => Some (do_bgfg_store argv i;; mret (BgfgStored argv i))
  | BgfgStored argv i =>
      if String.eqb (argv0 argv) "fg" then
        Some (J ← deref i; mret (WaitFg (pid J)))
      else if String.eqb (argv0 argv) "bg" then
        Some (J ← deref i;
              js ← gets jobs;
              printf (ack js (pid J) (cmdline J));;
              mret Prompt)
      else Some (mret Prompt)
  | AckBg p cmd =>
      Some (js ← gets jobs; printf (ack js p cmd);; mret Prompt)
  | WaitFg p => Some (waitfg p)
  | Prompt | Exited _ | Crashed => None
  end.

Definition running (c : ctl) : bool :=
  match c with
  | Exited _ | Crashed => false
  | _ => true
  end.

Definition transition (c : ctl) (l : label) : option (M ctl) :=
  match l with
  | Line argv bg cmd child =>
      match c with Prompt => eval argv bg cmd child | _ => None end
  | Eof => match c with Prompt => Some (exit 0) | _ => None end
  | Go kill_err => advance c kill_err
  | Chld reaped => if running c then Some (sigchld_handler reaped;; mret c) else None
  | Int => if running c then Some (sigint_handler;; mret c) else None
  | Tstp => if running c then Some (sigtstp_handler;; mret c) else None
  | Quit => if running c then Some (sigquit_handler;; mret c) else None
  end.

Definition config : Type := ctl * world.

Definition settle (r : outcome ctl) : config :=
  match r with
  | Ret c w => (c, w)
  | Exit code w => (Exited code, w)
  | Fault w => (Crashed, w)
  end.

Definition step (cf : config) (l : label) : option config :=
  m ← transition cf.1 l; Some (settle (m cf.2)).

Fixpoint run (cf : config) (ls : list label) : option config :=
  match ls with
  | [] => Some cf
  | l :: rest => cf' ← step cf l; run cf' rest
  end.

(** [main] after [initjobs(jobs)]: the static array is zero-filled and
    cleared once more, [nextjid] is 1, nothing has been printed. *)
Definition boot (v : bool) : config :=
  (Prompt, World (initjobs (replicate MAXJOBS (mkJob 0 0 UNDEF ""))) 1 v []).

(** ** Properties of tables, worlds and runs *)

(** The world a call leaves behind, however it ends. *)
Definition after {A} (o : outcome A) : world :=
  match o with
  | Ret _ w | Exit _ w | Fault w => w
  end.

(** [m] relates the world it starts in to the world it leaves. *)
Definition preserves {A} (R : world → world → Prop) (m : M A) : Prop :=
  ∀ w, R w (after (m w)).

(** A slot is live when its [pid] is not 0. *)
Definition live (J : Job) : Prop := pid J ≠ 0.

(** A slot with [pid = 0] is cleared in its other fields as well. *)
Definition empty_ok (J : Job) : Prop :=
  pid J = 0 → jid J = 0 ∧ state J = UNDEF ∧ cmdline J = EmptyString.

Definition table_ok (js : list Job) : Prop := Forall empty_ok js.

#[global] Instance live_dec J : Decision (live J).
Proof. unfold live. apply _. Defined.

#[global] Instance empty_ok_dec J : Decision (empty_ok J).
Proof. unfold empty_ok. apply _. Defined.

Definition pids_unique (js : list Job) : Prop :=
  ∀ i k Ji Jk, js !! i = Some Ji → js !! k = Some Jk →
    live Ji → pid Ji = pid Jk → i = k.

Definition jids_unique (js : list Job) : Prop :=
  ∀ i k Ji Jk, js !! i = Some Ji → js !! k = Some Jk →
    live Ji → live Jk → jid Ji = jid Jk → i = k.

(** At most one slot is in state [FG]. *)
Definition one_fg (js : list Job) : Prop :=
  ∀ i k Ji Jk, js !! i = Some Ji → js !! k = Some Jk →
    state Ji = FG → state Jk = FG → i = k.

Definition no_fg (js : list Job) : Prop :=
  ∀ i J, js !! i = Some J → state J ≠ FG.

(** Sequences of [addjob] and [deletejob] calls. *)
Inductive op : Type :=
| Add (p : Z) (st : jstate) (cmd : string)
| Del (p : Z).

Definition apply_op (o : op) : M bool :=
  match o with
  | Add p st cmd => addjob p st cmd
  | Del p => deletejob p
  end.

Fixpoint apply_ops (ops : list op) (w : world) : world :=
  match ops with
  | [] => w
  | o :: rest => apply_ops rest (after (apply_op o w))
  end.

(** [P] holds of every call of the sequence and the world it is made in. *)
Fixpoint along (P : op → world → Prop) (ops : list op) (w : world) : Prop :=
  match ops with
  | [] => True
  | o :: rest => P o w ∧ along P rest (after (apply_op o w))
  end.

(** [addjob] is called with a pid under which no job is found. *)
Definition fresh_pid (o : op) (w : world) : Prop :=
  match o with
  | Add p _ _ => getjobpid (jobs w) p = None
  | Del _ => True
  end.

(** [addjob] is called while [nextjid] is above every job id in the table. *)
Definition counter_above (o : op) (w : world) : Prop :=
  match o with
  | Add _ _ _ => maxjid (jobs w) < nextjid w
  | Del _ => True
  end.

Definition admissible (ops : list op) (w : world) : Prop :=
  along (λ o w, fresh_pid o w ∧ counter_above o w) ops w.

(** The call has returned true: [addjob] has stored a job, [deletejob] has
    removed one. *)
Definition returns_true (o : outcome bool) : bool :=
  match o with
  | Ret b _ => b
  | _ => false
  end.

(** An [addjob] that stores a job is given a pid under which no job is found
    and is not made in the state that the wrap of [nextjid] leaves behind,
    where [nextjid] is 1 while some slot holds a job id.  Calls of [addjob]
    that store nothing and calls of [deletejob] are free. *)
Definition safe_add (o : op) (w : world) : Prop :=
  match o with
  | Add p st cmd =>
      returns_true (addjob p st cmd w) = true →
      getjobpid (jobs w) p = None ∧ ¬ (nextjid w = 1 ∧ 0 < maxjid (jobs w))
  | Del _ => True
  end.

(** [nextjid] is above every job id of the table, or has just wrapped. *)
Definition counter_ok (w : world) : Prop :=
  maxjid (jobs w) < nextjid w ∨ nextjid w = 1.

(** What the control loop's program point says about the [FG] slots. *)
Definition ctl_inv (c : ctl) (js : list Job) : Prop :=
  match c with
  | WaitFg p => one_fg js ∧ ∀ i J, js !! i = Some J → state J = FG → pid J = p
  | BgfgStored argv i =>
      if String.eqb (argv0 argv) "fg"
      then ∀ k J, js !! k = Some J → state J = FG → k = i
      else no_fg js
  | Exited _ | Crashed => one_fg js
  | Prompt | BgfgFound _ _ | BgfgStore _ _ | AckBg _ _ => no_fg js
  end.

(** The slots of [js'] in state [s] are slots of [js] in state [s], with
    the same pid: no slot has entered state [s]. *)
Definition shrinks (s : jstate) (js js' : list Job) : Prop :=
  ∀ k J', js' !! k = Some J' → state J' = s →
    ∃ J, js !! k = Some J ∧ state J = s ∧ pid J = pid J'.

Definition no_entry (s : jstate) (w w' : world) : Prop :=
  shrinks s (jobs w) (jobs w').

(** The job table has as many slots as before. *)
Definition same_length (w w' : world) : Prop :=
  length (jobs w') = length (jobs w).

(** No slot holds a negative pid. *)
Definition pids_ok (js : list Job) : Prop := Forall (λ J, 0 ≤ pid J) js.

Definition keeps_pids_ok (w w' : world) : Prop :=
  pids_ok (jobs w) → pids_ok (jobs w').

(** The job table and [nextjid] are as they were. *)
Definition same_table (w w' : world) : Prop :=
  jobs w' = jobs w ∧ nextjid w' = nextjid w.

(** A relation between the world before and the world after that composes
    along a sequence of calls and that output does not disturb. *)
Class StepRel (R : world → world → Prop) : Prop := {
  rel_refl : ∀ w, R w w;
  rel_trans : ∀ w1 w2 w3, R w1 w2 → R w2 w3 → R w1 w3;
  rel_out : ∀ w e, R w (add_out e w)
}.

Definition full_msg : string := "Tried to create too many jobs" +:+ nl.

Definition added_msg (nj p : Z) (cmd : string) : string :=
  "Added job [" +:+ fmt_d nj +:+ "] " +:+ fmt_d p +:+ " " +:+ cmd +:+ nl.

(** The counter after [nextjid++; if (nextjid > MAXJOBS) nextjid = 1]. *)
Definition bump (nj : Z) : Z :=
  if nj + 1 >? Z.of_nat MAXJOBS then 1 else nj + 1.

(** The world at the initial prompt. *)
Definition w0 : world := (boot false).2.

(** Sixteen background jobs with pids 101 to 116 fill the table. *)
Definition sixteen_adds : list op :=
  (λ k, Add (100 + Z.of_nat k) BG "sleep 60 &") <$> seq 1 16.

Definition full_world : world := apply_ops sixteen_adds w0.

(** Three jobs of which the middle one is removed: ids 1 and 3 stay. *)
Definition gap_world : world :=
  apply_ops [Add 10 BG "a &"; Add 20 BG "b &"; Add 11 BG "c &"; Del 20] w0.

(** The table is filled, the jobs with ids 2 and 3 are removed, and two
    jobs are added: the first gets id 17 and wraps [nextjid] to 1. *)
Definition wrap_ops : list op :=
  sixteen_adds ++ [Del 102; Del 103; Add 200 BG "x &"; Add 201 BG "y &"].

(** After [wrap_ops], every job but those with pids 101 and 201 is removed. *)
Definition twin_world : world :=
  apply_ops (((λ k, Del (100 + Z.of_nat k)) <$> seq 4 13) ++ [Del 200])
            (apply_ops wrap_ops w0).

(** A foreground job with pid 300 has been launched and [waitfg] waits. *)
Definition fg_config : config :=
  default (boot false) (run (boot false) [Line ["/bin/cat"] false "/bin/cat" 300]).

(** A background job with pid 100 is launched and [fg %1] is typed;
    [do_bgfg] has found the job and is about to store its new state. *)
Definition fg_trace : list label :=
  [ Line ["/bin/sleep"; "60"] true "/bin/sleep 60 &" 100; Go None;
    Line ["fg"; "%1"] false "fg %1" 0; Go None ].

Definition before_fg : config := default (boot false) (run (boot false) fg_trace).

Definition after_fg : config := default before_fg (step before_fg (Go None)).

(** The line [bg] prints for job [J]. *)
Definition ack_line (J : Job) : string :=
  "[" +:+ fmt_d (jid J) +:+ "] (" +:+ fmt_d (pid J) +:+ ") " +:+ cmdline J.

(** The world at the prompt after [bg] has resumed the stopped job [J] of
    slot [i]: the signal, then the store, then the line. *)
Definition resumed_in_bg (w : world) (i : nat) (J : Job) : world :=
  World (set_state i BG (jobs w)) (nextjid w) (verbose w)
        (out w ++ [Kill (- pid J) SIGCONT; Printf (ack_line J)]).

(** A foreground job with pid 300 is stopped by ctrl-z; the shell is back
    at its prompt. *)
Definition stopped_config : config :=
  default (boot false)
    (run (boot false) [ Line ["/bin/cat"] false "/bin/cat" 300; Tstp;
                        Chld [(300, 5247)]; Go None ]).

(** The three ways in which [bg]/[fg] gives up, as [do_bgfg] tests for
    them: no [argv[1]]; a token that is "%" not followed by a digit, or that
    is no "%" token and on which [atoi] yields 0 (no numeral at its head, or
    a numeral whose low 32 bits are 0); a token that finds no job. *)
Inductive bgfg_failure : Type := NoArgument | BadToken | NoTarget.

Definition malformed (tok : string) : bool :=
  if Ascii.eqb (char_at tok 0) "%" then negb (isdigit (char_at tok 1))
  else atoi tok =? 0.

Definition target (js : list Job) (tok : string) : option nat :=
  if Ascii.eqb (char_at tok 0) "%" then getjobjid js (atoi (from_1 tok))
  else getjobpid js (atoi tok).

Definition bgfg_failure_of (js : list Job) (argv : list string) : option bgfg_failure :=
  match argv !! 1%nat with
  | None => Some NoArgument
  | Some tok =>
      if malformed tok then Some BadToken
      else match target js tok with
           | None => Some NoTarget
           | Some _ => None
           end
  end.

Definition failure_message (k : bgfg_failure) (argv : list string) : string :=
  match k with
  | NoArgument => msg_missing (argv0 argv)
  | BadToken => msg_malformed (argv0 argv)
  | NoTarget =>
      let tok := default EmptyString (argv !! 1%nat) in
      if Ascii.eqb (char_at tok 0) "%" then msg_nojob tok else msg_noproc tok
  end.

(** The number of live slots. *)
Definition live_count (js : list Job) : nat := length (filter live js).

(** A live slot holds a pid and a job id that are at least 1, and a state
    other than [UNDEF]. *)
Definition slot_ok (J : Job) : Prop :=
  live J → 1 ≤ pid J ∧ 1 ≤ jid J ∧ state J ≠ UNDEF.

Definition world_ok (w : world) : Prop :=
  Forall slot_ok (jobs w) ∧ 1 ≤ nextjid w.

Definition keeps_world_ok (w w' : world) : Prop := world_ok w → world_ok w'.

(** What [listjobs] prints for a live job whose state is not [UNDEF]. *)
Definition job_label (s : jstate) : string :=
  match s with
  | BG => "Running "
  | FG => "Foreground "
  | ST => "Stopped "
  | UNDEF => EmptyString
  end.

Definition job_lines (J : Job) : list event :=
  [ Printf ("[" +:+ fmt_d (jid J) +:+ "] (" +:+ fmt_d (pid J) +:+ ") ");
    Printf (job_label (state J));
    Printf (cmdline J) ].

(** The world after a successful [addjob] into the free slot [i]. *)
Definition registered (w : world) (i : nat) (p : Z) (st : jstate) (cmd : string)
  : world :=
  World (<[i := mkJob p (nextjid w) st cmd]> (jobs w)) (bump (nextjid w))
        (verbose w)
        (out w ++ if verbose w then [Printf (added_msg (nextjid w) p cmd)] else []).

(** The world after [deletejob] has cleared slot [i]. *)
Definition reaped_slot (w : world) (i : nat) : world :=
  World (<[i := mkJob 0 0 UNDEF ""]> (jobs w))
        (maxjid (<[i := mkJob 0 0 UNDEF ""]> (jobs w)) + 1)
        (verbose w) (out w).

(** What [sigchld_handler] writes for the stopped job [J]. *)
Definition stopped_notice (J : Job) (name : string) : list event :=
  [ Write "Job ["; Write (sio_ltoa (jid J) 10); Write "] (";
    Write (sio_ltoa (pid J) 10); Write ") stopped by signal SIG";
    Write name; Write nl ].

(** What [sigchld_handler] writes for the job [J] killed by a signal. *)
Definition terminated_notice (J : Job) : list event :=
  [ Write "Job ["; Write (sio_ltoa (jid J) 10); Write "] (";
    Write (sio_ltoa (pid J) 10); Write ") terminated by signal SIGINT";
    Write nl ].

(** The number written by a list of decimal digit characters, least
    significant digit first. *)
Fixpoint digits_value (l : list ascii) : Z :=
  match l with
  | [] => 0
  | c :: rest => (code c - 48) + 10 * digits_value rest
  end.

(** ** Splitting a command line into arguments *)

(** [MAXLINE] and [MAXARGS] *)
Definition MAXLINE : nat := 1024.
Definition MAXARGS : nat := 128.

(** [strcpy]: the characters up to the terminating NUL. *)
Fixpoint strcpy (s : string) : string :=
  match s with
  | EmptyString => EmptyString
  | String c rest =>
      if Ascii.eqb c Ascii.zero then EmptyString else String c (strcpy rest)
  end.

(** The last character of [buf] replaced by a space. *)
Fixpoint set_last_space (buf : string) : string :=
  match buf with
  | EmptyString => EmptyString
  | String c EmptyString => String " " EmptyString
  | String c rest => String c (set_last_space rest)
  end.

(** The loop that moves [buf] past the spaces it points at. *)
Fixpoint skip_spaces (buf : string) : string :=
  match buf with
  | String c rest => if Ascii.eqb c " " then skip_spaces rest else buf
  | EmptyString => EmptyString
  end.

(** [delim = strchr(buf, c)] for a [c] other than NUL: the text before the
    first [c] and the text after it ([delim + 1]); [None] is [NULL]. *)
Fixpoint strchr (c : ascii) (buf : string) : option (string * string) :=
  match buf with
  | EmptyString => None
  | String a rest =>
      if Ascii.eqb a c then Some (EmptyString, rest)
      else '(arg, rest') ← strchr c rest; Some (String a arg, rest')
  end.

(** The search for the end of the argument that starts at [buf]: up to the
    closing quote after an opening one, up to the next space otherwise. *)
Definition delimit (buf : string) : option (string * string) :=
  match buf with
  | String "'" rest => strchr "'" rest
  | _ => strchr " " buf
  end.

(** The loop that builds [argv]; each round consumes its delimiter, so
    the length of [buf] is fuel enough. *)
Fixpoint parseline_loop (fuel : nat) (buf : string) : list string :=
  match fuel with
  | O => []
  | S fuel =>
      match delimit buf with
      | None => []
      | Some (arg, rest) => arg :: parseline_loop fuel (skip_spaces rest)
      end
  end.

(** [parseline]: [argv] and the background flag.  [None] is a write outside
    an array: before [array] for an empty line, past its end for a line of
    [MAXLINE] characters or more, past the end of [argv] for [MAXARGS]
    arguments or more. *)
Definition parseline (cmdline : string) : option (list string * bool) :=
  let buf := strcpy cmdline in
  if bool_decide (String.length buf = 0%nat ∨ MAXLINE ≤ String.length buf)%nat
  then None
  else
    let argv :=
      parseline_loop (String.length buf) (skip_spaces (set_last_space buf)) in
    if bool_decide (MAXARGS ≤ length argv)%nat then None
    else
      match last argv with
      | None => Some ([], true)
      | Some arg =>
          if Ascii.eqb (char_at arg 0) "&" then Some (removelast argv, true)
          else Some (argv, false)
      end.


(** ** Command lines built from arguments *)

(** An argument as it is typed: bare, or between single quotes. *)
Inductive token : Type :=
| Bare (text : string)
| Quoted (text : string).

Definition text (t : token) : string :=
  match t with Bare s | Quoted s => s end.

Definition render (t : token) : string :=
  match t with
  | Bare s => s
  | Quoted s => "'" +:+ s +:+ "'"
  end.

(** [c] does not occur in [s]. *)
Fixpoint lacks (c : ascii) (s : string) : bool :=
  match s with
  | EmptyString => true
  | String a rest => negb (Ascii.eqb a c) && lacks c rest
  end.

(** A bare argument is not empty, holds no space and does not start with a
    quote; a quoted one holds no quote.  Neither holds a NUL. *)
Definition token_ok (t : token) : bool :=
  match t with
  | Bare s =>
      negb (String.eqb s EmptyString) && lacks " " s && lacks Ascii.zero s
      && negb (Ascii.eqb (char_at s 0) "'")
  | Quoted s => lacks "'" s && lacks Ascii.zero s
  end.

(** The line a user types for the arguments [ts]: one space between two
    arguments, a newline at the end. *)
Definition command_line (ts : list token) : string :=
  String.concat " " (map render ts) +:+ nl.

(** The same arguments, each one followed by a space. *)
Fixpoint spaced (ts : list token) : string :=
  match ts with
  | [] => EmptyString
  | t :: rest => render t +:+ " " +:+ spaced rest
  end.

(** ** Reversing a string in place *)

(** The loop of [sio_reverse] as it is written: [i] moves up and [j] down,
    and the characters at [i] and [j] are swapped while [i < j]. *)
Fixpoint sio_reverse_loop (fuel : nat) (i j : Z) (s : list ascii) : list ascii :=
  match fuel with
  | O => s
  | S fuel =>
      if i <? j then
        let c := default Ascii.zero (s !! Z.to_nat i) in
        let s := <[Z.to_nat i := default Ascii.zero (s !! Z.to_nat j)]> s in
        let s := <[Z.to_nat j := c]> s in
        sio_reverse_loop fuel (i + 1) (j - 1) s
      else s
  end.

Definition sio_reverse_in_place (s : string) : string :=
  let l := list_ascii_of_string s in
  string_of_list_ascii
    (sio_reverse_loop (length l) 0 (Z.of_nat (length l) - 1) l).

(** ** [listjobs] while SIGCHLD is not blocked

    [builtin_cmd] calls [listjobs] with no signal blocked, and the job table
    is [volatile]: every mention of [jobs[i]] is a read of its own, and
    [sigchld_handler] may run between any two of them.  [deliveries] names,
    for one round of the loop, what [waitpid] hands to the handler at each of
    these places; the empty list stands for no handler run.  C leaves open
    which argument of the first [printf] is read first: [jid_first] says. *)

Definition state_code (s : jstate) : Z :=
  match s with
  | UNDEF => 0
  | FG => 1
  | BG => 2
  | ST => 3
  end.

Record deliveries : Type := Deliveries {
  at_test : list (Z * Z);     (* before the test of jobs[i].pid *)
  at_head : list (Z * Z);     (* before the first argument read for "[%d] (%d) " *)
  in_head : list (Z * Z);     (* between the two argument reads *)
  at_switch : list (Z * Z);   (* before the switch on jobs[i].state *)
  at_default : list (Z * Z);  (* in the default branch, before jobs[i].state is read again *)
  at_cmdline : list (Z * Z)   (* before jobs[i].cmdline is printed *)
}.

(** No handler runs. *)
Definition quiet : deliveries := Deliveries [] [] [] [] [] [].

(** The child [p] is reaped after the test of the pid and the first
    [printf], before the switch on the state. *)
Definition reap_before_switch (p status : Z) : deliveries :=
  Deliveries [] [] [] [(p, status)] [] [].

(** One round of the loop of [listjobs], for slot [i]. *)
Definition listjobs_slot (jid_first : bool) (d : deliveries) (i : nat) : M unit :=
  sigchld_handler (at_test d);;
  J ← deref i;
  when (negb (pid J =? 0))
    (sigchld_handler (at_head d);;
     J1 ← deref i;
     sigchld_handler (in_head d);;
     J2 ← deref i;
     printf ("[" +:+ fmt_d (jid (if jid_first then J1 else J2)) +:+ "] ("
             +:+ fmt_d (pid (if jid_first then J2 else J1)) +:+ ") ");;
     sigchld_handler (at_switch d);;
     J3 ← deref i;
     match state J3 with
     | BG => printf "Running "
     | FG => printf "Foreground "
     | ST => printf "Stopped "
     | UNDEF =>
         sigchld_handler (at_default d);;
         J4 ← deref i;
         printf ("listjobs: Internal error: job[" +:+ fmt_d (Z.of_nat i)
                 +:+ "].state=" +:+ fmt_d (state_code (state J4)) +:+ " ")
     end;;
     sigchld_handler (at_cmdline d);;
     J5 ← deref i;
     printf (cmdline J5)).

(** [n] rounds of the loop from slot [i]; [sched] gives the deliveries of
    each round. *)
Fixpoint listjobs_racy_loop (jid_first : bool) (sched : nat → deliveries)
    (n i : nat) : M unit :=
  match n with
  | O => mret tt
  | S n =>
      listjobs_slot jid_first (sched i) i;;
      listjobs_racy_loop jid_first sched n (S i)
  end.

Definition listjobs_racy (jid_first : bool) (sched : nat → deliveries) : M unit :=
  listjobs_racy_loop jid_first sched MAXJOBS 0.

(** ** Two jobs with one job id

    Sixteen background jobs with pids 101 to 116 are launched, which wraps
    [nextjid] to 1; the jobs with pids 102 and 103 exit, which sets [nextjid]
    to 17; a background job with pid 200 gets job id 17, which wraps
    [nextjid] again; a foreground job with pid 201 then gets job id 1, which
    the job with pid 101 still holds, and is stopped by ctrl-z. *)
Definition shared_jid_trace : list label :=
  (seq 1 16 ≫= λ k, [ Line ["/bin/sleep"; "60"] true "/bin/sleep 60 &"
                        (100 + Z.of_nat k); Go None ])
  ++ [ Chld [(102, 0); (103, 0)];
       Line ["/bin/sleep"; "60"] true "/bin/sleep 60 &" 200; Go None;
       Line ["/bin/cat"] false "/bin/cat" 201; Tstp; Chld [(201, 5247)];
       Go None ].

Definition shared_jid_config : config :=
  default (boot false) (run (boot false) shared_jid_trace).

(** ** The monad: how relations between worlds compose *)

Section Preserves.
Context (R : world → world → Prop) `{!StepRel R}.

Lemma preserves_ret {A} (a : A) : preserves R (mret a).
Proof. intros w. apply rel_refl. Qed.

Lemma preserves_bind {A B} (m : M A) (f : A → M B) :
  preserves R m → (∀ a, preserves R (f a)) → preserves R (m ≫= f).
Proof.
  intros Hm Hf w. specialize (Hm w).
  unfold mbind, M_bind. destruct (m w) as [a w'| |]; simpl in *; auto.
  eapply rel_trans; [exact Hm | apply Hf].
Qed.

Lemma preserves_gets {A} (f : world → A) : preserves R (gets f).
Proof. intros w. apply rel_refl. Qed.

Lemma preserves_exit {A} code : preserves R (@exit A code).
Proof. intros w. apply rel_refl. Qed.

Lemma preserves_fault {A} : preserves R (@fault A).
Proof. intros w. apply rel_refl. Qed.

Lemma preserves_when b m : preserves R m → preserves R (when b m).
Proof. destruct b; simpl; auto using preserves_ret. Qed.

Lemma preserves_emit e : preserves R (emit e).
Proof. intros w. apply rel_out. Qed.

Lemma preserves_printf s : preserves R (printf s).
Proof. apply preserves_emit. Qed.

Lemma preserves_sio_puts s : preserves R (sio_puts s).
Proof. apply preserves_emit. Qed.

Lemma preserves_sio_putl v : preserves R (sio_putl v).
Proof. apply preserves_emit. Qed.

Lemma preserves_unix_error {A} msg err : preserves R (@unix_error A msg err).
Proof. apply preserves_bind; [apply preserves_printf | intros; apply preserves_exit]. Qed.

(** A call that preserves [R], followed by the program point it leads to. *)
Lemma settle_then {A} (m : M A) (f : A → ctl) w :
  preserves R m →
  R w (settle ((m ≫= λ a, mret (f a)) w)).2
  ∧ ((∃ a, (settle ((m ≫= λ a, mret (f a)) w)).1 = f a)
     ∨ running (settle ((m ≫= λ a, mret (f a)) w)).1 = false).
Proof.
  intros Hm. specialize (Hm w). unfold mbind, M_bind.
  destruct (m w); simpl in *; eauto.
Qed.

End Preserves.

Ltac preserves_tac :=
  repeat (intros;
    lazymatch goal with
    | |- StepRel _ => exact _
    | |- preserves _ (mret _) => apply preserves_ret
    | |- preserves _ (gets _) => apply preserves_gets
    | |- preserves _ (exit _) => apply preserves_exit
    | |- preserves _ fault => apply preserves_fault
    | |- preserves _ (printf _) => apply preserves_printf
    | |- preserves _ (sio_puts _) => apply preserves_sio_puts
    | |- preserves _ (sio_putl _) => apply preserves_sio_putl
    | |- preserves _ (emit _) => apply preserves_emit
    | |- preserves _ (unix_error _ _) => apply preserves_unix_error
    | |- preserves _ (when _ _) => apply preserves_when
    | |- preserves _ (mbind _ _) => apply preserves_bind
    | |- preserves _ (match ?x with _ => _ end) => destruct x
    end).

(** Calls that only read the table and produce output. *)
Section ReadOnly.
Context (R : world → world → Prop) `{!StepRel R}.

Lemma preserves_sigint_handler : preserves R sigint_handler.
Proof. unfold sigint_handler. preserves_tac. Qed.

Lemma preserves_sigtstp_handler : preserves R sigtstp_handler.
Proof. unfold sigtstp_handler. preserves_tac. Qed.

Lemma preserves_sigquit_handler : preserves R sigquit_handler.
Proof. unfold sigquit_handler. preserves_tac. Qed.

Lemma preserves_listjobs_loop i js : preserves R (listjobs_loop i js).
Proof.
  revert i. induction js as [|J js IH]; intros i; simpl; preserves_tac.
  intros _. apply IH.
Qed.

Lemma preserves_listjobs : preserves R listjobs.
Proof. unfold listjobs. preserves_tac. apply preserves_listjobs_loop. Qed.

Lemma preserves_do_bgfg_lookup argv : preserves R (do_bgfg_lookup argv).
Proof. unfold do_bgfg_lookup. preserves_tac. Qed.

Lemma preserves_deref i : preserves R (deref i).
Proof. unfold deref. preserves_tac. Qed.

Lemma preserves_do_bgfg_cont i kill_err : preserves R (do_bgfg_cont i kill_err).
Proof. unfold do_bgfg_cont. preserves_tac; apply preserves_deref. Qed.
End ReadOnly.

(** ** The job list helper routines: what a call returns *)

Ltac unfold_m :=
  unfold mbind, M_bind, mret, M_ret, gets, update_jobs, printf, emit, modify,
    when, exit, fault; simpl.

Lemma addjob_rejects p st cmd w : p < 1 → addjob p st cmd w = Ret false w.
Proof.
  intros Hp. unfold addjob.
  destruct (Z.ltb_spec p 1); [reflexivity | lia].
Qed.

Lemma addjob_full p st cmd w :
  1 ≤ p → first_pid (jobs w) 0 = None →
  addjob p st cmd w = Ret false (add_out (Printf full_msg) w).
Proof.
  intros Hp Hfull. unfold addjob.
  destruct (Z.ltb_spec p 1); [lia |].
  unfold_m. rewrite Hfull. reflexivity.
Qed.

Lemma addjob_fills p st cmd w i J :
  1 ≤ p → first_pid (jobs w) 0 = Some (i, J) →
  addjob p st cmd w =
    Ret true (World (<[i := mkJob p (nextjid w) st cmd]> (jobs w))
                    (bump (nextjid w)) (verbose w)
                    (out w ++ if verbose w
                              then [Printf (added_msg (nextjid w) p cmd)]
                              else [])).
Proof.
  intros Hp Hfree. unfold addjob.
  destruct (Z.ltb_spec p 1); [lia |].
  unfold_m. rewrite Hfree. simpl.
  destruct w as [js nj [] o]; simpl; [reflexivity |].
  by rewrite app_nil_r.
Qed.

Lemma deletejob_rejects p w : p < 1 → deletejob p w = Ret false w.
Proof.
  intros Hp. unfold deletejob.
  destruct (Z.ltb_spec p 1); [reflexivity | lia].
Qed.

Lemma deletejob_missing p w :
  first_pid (jobs w) p = None → deletejob p w = Ret false w.
Proof.
  intros Hnone. unfold deletejob.
  destruct (p <? 1); [reflexivity |].
  unfold_m. by rewrite Hnone.
Qed.

Lemma deletejob_clears p w i J :
  1 ≤ p → first_pid (jobs w) p = Some (i, J) →
  deletejob p w =
    Ret true (World (<[i := clearjob J]> (jobs w))
                    (maxjid (<[i := clearjob J]> (jobs w)) + 1)
                    (verbose w) (out w)).
Proof.
  intros Hp Hfound. unfold deletejob.
  destruct (Z.ltb_spec p 1); [lia |].
  unfold_m. by rewrite Hfound.
Qed.

(** Both calls always return to their caller. *)
Lemma addjob_returns p st cmd w : ∃ b w', addjob p st cmd w = Ret b w'.
Proof.
  destruct (Z.lt_ge_cases p 1) as [Hp|Hp].
  - eauto using addjob_rejects.
  - destruct (first_pid (jobs w) 0) as [[i J]|] eqn:Hfree.
    + eauto using addjob_fills.
    + eauto using addjob_full.
Qed.

Lemma deletejob_returns p w : ∃ b w', deletejob p w = Ret b w'.
Proof.
  destruct (Z.lt_ge_cases p 1) as [Hp|Hp].
  - eauto using deletejob_rejects.
  - destruct (first_pid (jobs w) p) as [[i J]|] eqn:Hfound.
    + eauto using deletejob_clears.
    + eauto using deletejob_missing.
Qed.

(** ** [maxjid] *)

Lemma maxjid_loop_lower m js : m ≤ maxjid_loop m js.
Proof.
  revert m. induction js as [|J js IH]; intros m; simpl; [lia |].
  destruct (Z.gtb_spec (jid J) m); etrans; [| apply IH | | apply IH]; lia.
Qed.

Lemma maxjid_loop_upper m js J : J ∈ js → jid J ≤ maxjid_loop m js.
Proof.
  revert m. induction js as [|K js IH]; intros m HJ; [by apply elem_of_nil in HJ |].
  apply elem_of_cons in HJ as [->|HJ]; simpl; [| by apply IH].
  etrans; [| apply maxjid_loop_lower].
  destruct (Z.gtb_spec (jid K) m); lia.
Qed.

Lemma maxjid_loop_bound m js b :
  m ≤ b → (∀ J, J ∈ js → jid J ≤ b) → maxjid_loop m js ≤ b.
Proof.
  revert m. induction js as [|K js IH]; intros m Hm Hjs; simpl; [done |].
  apply IH.
  - destruct (Z.gtb_spec (jid K) m); [apply Hjs; left | done].
  - intros J HJ. apply Hjs. by right.
Qed.

Lemma maxjid_nonneg js : 0 ≤ maxjid js.
Proof. apply maxjid_loop_lower. Qed.

Lemma maxjid_upper js i J : js !! i = Some J → jid J ≤ maxjid js.
Proof. intros H. eapply maxjid_loop_upper, list_elem_of_lookup_2, H. Qed.

Lemma maxjid_bound js b :
  0 ≤ b → (∀ i J, js !! i = Some J → jid J ≤ b) → maxjid js ≤ b.
Proof.
  intros Hb Hjs. apply maxjid_loop_bound; [done |].
  intros J [i Hi]%list_elem_of_lookup_1. eauto.
Qed.

(** An empty slot with a cleared [jid] does not count. *)
Lemma maxjid_loop_live m js :
  0 ≤ m → table_ok js → maxjid_loop m js = maxjid_loop m (filter live js).
Proof.
  intros Hm Hok. revert m Hm.
  induction Hok as [|J js HJ Hok IH]; intros m Hm; [reflexivity |].
  rewrite filter_cons. destruct (decide (live J)) as [Hl|Hl]; simpl.
  - apply IH. destruct (Z.gtb_spec (jid J) m); lia.
  - assert (jid J = 0) as -> by (apply HJ; unfold live in Hl; lia).
    destruct (Z.gtb_spec 0 m); [lia |]. by apply IH.
Qed.

(** ** Cleared slots *)

Lemma clearjob_empty_ok J : empty_ok (clearjob J).
Proof. by intros _. Qed.

Lemma initjobs_ok js : table_ok (initjobs js).
Proof.
  unfold table_ok, initjobs. apply Forall_fmap, Forall_true.
  intros J. apply clearjob_empty_ok.
Qed.

Lemma addjob_table_ok p st cmd w :
  table_ok (jobs w) → table_ok (jobs (after (addjob p st cmd w))).
Proof.
  intros Hok. destruct (Z.lt_ge_cases p 1) as [Hp|Hp].
  - by rewrite addjob_rejects.
  - destruct (first_pid (jobs w) 0) as [[i J]|] eqn:Hfree.
    + rewrite (addjob_fills _ _ _ _ i J) by done. simpl.
      apply Forall_insert; [done |]. intros Hpid; simpl in Hpid; lia.
    + by rewrite addjob_full.
Qed.

Lemma deletejob_table_ok p w :
  table_ok (jobs w) → table_ok (jobs (after (deletejob p w))).
Proof.
  intros Hok. destruct (Z.lt_ge_cases p 1) as [Hp|Hp].
  - by rewrite deletejob_rejects.
  - destruct (first_pid (jobs w) p) as [[i J]|] eqn:Hfound.
    + rewrite (deletejob_clears _ _ i J) by done. simpl.
      apply Forall_insert; [done | apply clearjob_empty_ok].
    + by rewrite deletejob_missing.
Qed.

Lemma getjobpid_Some js p i :
  getjobpid js p = Some i ↔
  1 ≤ p ∧ ∃ J, first_pid js p = Some (i, J).
Proof.
  unfold getjobpid. destruct (Z.ltb_spec p 1).
  - split; [done | lia].
  - destruct (first_pid js p) as [[k J]|]; simpl.
    + split; [intros [= ->]; eauto | by intros (_ & J' & [= -> ->])].
    + split; [done | by intros (_ & J' & ?)].
Qed.

Lemma getjobjid_Some js j i :
  getjobjid js j = Some i ↔
  1 ≤ j ∧ ∃ J, first_jid js j = Some (i, J).
Proof.
  unfold getjobjid. destruct (Z.ltb_spec j 1).
  - split; [done | lia].
  - destruct (first_jid js j) as [[k J]|]; simpl.
    + split; [intros [= ->]; eauto | by intros (_ & J' & [= -> ->])].
    + split; [done | by intros (_ & J' & ?)].
Qed.

Lemma getjobpid_live js p i :
  getjobpid js p = Some i → ∃ J, js !! i = Some J ∧ live J ∧ pid J = p.
Proof.
  intros (Hp & J & (Hi & HJ & _)%list_find_Some)%getjobpid_Some.
  exists J. unfold live. split_and!; [done | lia | done].
Qed.

Lemma getjobjid_live js j i :
  table_ok js → getjobjid js j = Some i →
  ∃ J, js !! i = Some J ∧ live J ∧ jid J = j.
Proof.
  intros Hok (Hj & J & (Hi & HJ & _)%list_find_Some)%getjobjid_Some.
  exists J. split_and!; [done | | done].
  intros Hpid. eapply Forall_lookup_1 in Hok; [| exact Hi].
  destruct (Hok Hpid) as (Hjid & _). lia.
Qed.

(** C10: [initjobs], [addjob] and [deletejob] keep every slot with [pid = 0]
    cleared ([jid = 0], state [UNDEF], empty command line), and on such a
    table [maxjid] is the maximum over the live slots alone, and the slot
    found by [getjobjid] or by [getjobpid] is live. *)
Theorem C10_cleared_slots_invariant (w : world) (p : Z) (st : jstate) (cmd : string) :
  table_ok (jobs w) →
  table_ok (initjobs (jobs w))
  ∧ (∃ b w', addjob p st cmd w = Ret b w' ∧ table_ok (jobs w'))
  ∧ (∃ b w', deletejob p w = Ret b w' ∧ table_ok (jobs w'))
  ∧ maxjid (jobs w) = maxjid (filter live (jobs w))
  ∧ (∀ j i, getjobjid (jobs w) j = Some i →
       ∃ J, jobs w !! i = Some J ∧ live J ∧ jid J = j)
  ∧ (∀ q i, getjobpid (jobs w) q = Some i →
       ∃ J, jobs w !! i = Some J ∧ live J ∧ pid J = q).
Proof.
  intros Hok. split_and!.
  - apply initjobs_ok.
  - pose proof (addjob_table_ok p st cmd w Hok) as H.
    destruct (addjob_returns p st cmd w) as (b & w' & E).
    rewrite E in H. eauto.
  - pose proof (deletejob_table_ok p w Hok) as H.
    destruct (deletejob_returns p w) as (b & w' & E).
    rewrite E in H. eauto.
  - by apply maxjid_loop_live.
  - intros j i. by apply getjobjid_live.
  - intros q i. apply getjobpid_live.
Qed.

Lemma C10_cleared_slots_invariant_witness :
  table_ok (jobs gap_world)
  ∧ table_ok (initjobs (jobs gap_world))
  ∧ (∃ b w', addjob 12 BG "d &" gap_world = Ret b w' ∧ table_ok (jobs w'))
  ∧ (∃ b w', deletejob 11 gap_world = Ret b w' ∧ table_ok (jobs w'))
  ∧ maxjid (jobs gap_world) = maxjid (filter live (jobs gap_world)).
Proof.
  assert (table_ok (jobs gap_world)) as Hok
    by (apply (bool_decide_unpack _); vm_compute; exact I).
  destruct (C10_cleared_slots_invariant gap_world 12 BG "d &" Hok)
    as (Hinit & Hadd & _).
  destruct (C10_cleared_slots_invariant gap_world 11 BG "d &" Hok)
    as (_ & _ & Hdel & Hmax & _).
  by split_and!.
Defined.

(** ** A full table *)

Lemma full_no_free_slot js : Forall live js → first_pid js 0 = None.
Proof.
  intros Hfull. apply list_find_None.
  eapply Forall_impl; [exact Hfull | done].
Qed.

(** C5, as the code has it: on a table whose 16 slots are all live, [addjob]
    returns [false] to its caller for every pid and leaves every slot and
    [nextjid] as they were; it prints "Tried to create too many jobs" when
    the pid is at least 1, and prints nothing when the pid is below 1. *)
Theorem C5_add_to_full_table (w : world) (p : Z) (st : jstate) (cmd : string) :
  length (jobs w) = MAXJOBS → Forall live (jobs w) →
  ∃ w', addjob p st cmd w = Ret false w'
        ∧ jobs w' = jobs w ∧ nextjid w' = nextjid w
        ∧ out w' = out w ++ (if p <? 1 then [] else [Printf full_msg]).
Proof.
  intros _ Hfull. destruct (Z.ltb_spec p 1) as [Hp|Hp].
  - exists w. rewrite addjob_rejects by done. by rewrite app_nil_r.
  - eexists. rewrite addjob_full by auto using full_no_free_slot.
    by split_and!.
Qed.

Lemma C5_add_to_full_table_witness :
  length (jobs full_world) = MAXJOBS ∧ Forall live (jobs full_world)
  ∧ ∃ w', addjob 117 FG "ls" full_world = Ret false w'
          ∧ jobs w' = jobs full_world ∧ nextjid w' = nextjid full_world
          ∧ out w' = out full_world ++ [Printf full_msg].
Proof.
  assert (length (jobs full_world) = MAXJOBS) as Hlen
    by (vm_compute; reflexivity).
  assert (Forall live (jobs full_world)) as Hfull
    by (apply (bool_decide_unpack _); vm_compute; exact I).
  split_and!; [done | done |].
  exact (C5_add_to_full_table full_world 117 FG "ls" Hlen Hfull).
Defined.

Lemma addjob_rejects_silently p st cmd w :
  p < 1 →
  ¬ (∃ w' msg, addjob p st cmd w = Ret false w' ∧ out w' = out w ++ [Printf msg]).
Proof.
  intros Hp (w' & msg & Hret & Hout).
  rewrite addjob_rejects in Hret by done.
  injection Hret as <-.
  apply (f_equal length) in Hout. rewrite length_app in Hout.
  simpl in Hout. lia.
Qed.

(** C5 as stated fails for a pid below 1, the value [fork] hands to [eval]
    when it fails: the call on the full table returns [false] and nothing
    at all is printed. *)
Lemma C5_silent_failure :
  length (jobs full_world) = MAXJOBS ∧ Forall live (jobs full_world)
  ∧ ¬ (∃ w' msg, addjob (-1) FG "ls" full_world = Ret false w'
                 ∧ out w' = out full_world ++ [Printf msg]).
Proof.
  split_and!.
  - vm_compute; reflexivity.
  - apply (bool_decide_unpack _); vm_compute; exact I.
  - apply addjob_rejects_silently. lia.
Qed.

(** ** Job ids after a removal *)

Lemma first_pid_Some js p i J :
  first_pid js p = Some (i, J) → js !! i = Some J ∧ pid J = p.
Proof. intros (Hi & HJ & _)%list_find_Some. done. Qed.

Lemma cleared_slot_is_free js i J :
  js !! i = Some J → is_Some (first_pid (<[i := clearjob J]> js) 0).
Proof.
  intros Hi. apply (list_find_elem_of _ _ (clearjob J)); [| done].
  eapply list_elem_of_lookup_2, list_lookup_insert_eq, lookup_lt_Some, Hi.
Qed.

Lemma maxjid_after_clear js i J :
  maxjid (<[i := clearjob J]> js) ≤ maxjid js.
Proof.
  apply maxjid_bound; [apply maxjid_nonneg |].
  intros k K [(-> & <- & _)|(_ & Hk)]%list_lookup_insert_Some.
  - apply maxjid_nonneg.
  - by eapply maxjid_upper.
Qed.

Lemma maxjid_after_clear_max js i J :
  js !! i = Some J → jid J = maxjid js → 1 ≤ jid J →
  (∀ k K, js !! k = Some K → k ≠ i → jid K ≠ jid J) →
  maxjid (<[i := clearjob J]> js) < maxjid js.
Proof.
  intros Hi Hmax Hpos Halone.
  cut (maxjid (<[i := clearjob J]> js) ≤ maxjid js - 1); [lia |].
  apply maxjid_bound; [lia |].
  intros k K [(-> & <- & _)|(Hne & Hk)]%list_lookup_insert_Some.
  - simpl. lia.
  - pose proof (maxjid_upper _ _ _ Hk).
    pose proof (Halone k K Hk (not_eq_sym Hne)). lia.
Qed.

(** C4, as the code has it: when [deletejob] removes the job that holds
    the maximum job id [M >= 1] and no other slot holds [M], the next
    successful [addjob] assigns [maxjid + 1] of the remaining table, which
    is at most [M]; it is [M] itself when [M = 1] or another slot holds
    [M - 1]. *)
Theorem C4_next_id_after_removing_max
    (w : world) (p q : Z) (i : nat) (J : Job) (st : jstate) (cmd : string) :
  1 ≤ p → first_pid (jobs w) p = Some (i, J) →
  jid J = maxjid (jobs w) → 1 ≤ jid J →
  (∀ k K, jobs w !! k = Some K → k ≠ i → jid K ≠ jid J) →
  1 ≤ q →
  ∃ w1 w2 k K,
    deletejob p w = Ret true w1
    ∧ first_pid (jobs w1) 0 = Some (k, K)
    ∧ addjob q st cmd w1 = Ret true w2
    ∧ jobs w2 !! k = Some (mkJob q (maxjid (jobs w1) + 1) st cmd)
    ∧ maxjid (jobs w1) + 1 ≤ maxjid (jobs w)
    ∧ (jid J = 1 ∨ (∃ k' K', jobs w !! k' = Some K' ∧ jid K' = jid J - 1) →
       maxjid (jobs w1) + 1 = maxjid (jobs w)).
Proof.
  intros Hp Hfound Hmax Hpos Halone Hq.
  destruct (first_pid_Some _ _ _ _ Hfound) as [Hi _].
  destruct (cleared_slot_is_free _ _ _ Hi) as [[k K] Hfree].
  pose proof (maxjid_after_clear_max _ _ _ Hi Hmax Hpos Halone) as Hlt.
  eexists _, _, k, K. split_and!.
  - by apply deletejob_clears.
  - exact Hfree.
  - by apply (addjob_fills _ _ _ _ k K).
  - simpl. apply list_lookup_insert_eq.
    apply list_find_Some in Hfree as (Hk & _). by eapply lookup_lt_Some.
  - simpl. lia.
  - simpl. intros [H1|(k' & K' & Hk' & HK')].
    + pose proof (maxjid_nonneg (<[i:=clearjob J]> (jobs w))). lia.
    + assert (k' ≠ i) as Hne by (intros ->; rewrite Hi in Hk'; injection Hk' as <-; lia).
      assert (<[i:=clearjob J]> (jobs w) !! k' = Some K') as Hk''
        by (rewrite list_lookup_insert_ne; done).
      pose proof (maxjid_upper _ _ _ Hk''). lia.
Qed.

Lemma C4_next_id_after_removing_max_witness :
  ∃ w1 w2 k K,
    deletejob 11 gap_world = Ret true w1
    ∧ first_pid (jobs w1) 0 = Some (k, K)
    ∧ addjob 12 BG "d &" w1 = Ret true w2
    ∧ jobs w2 !! k = Some (mkJob 12 (maxjid (jobs w1) + 1) BG "d &")
    ∧ maxjid (jobs w1) + 1 ≤ maxjid (jobs gap_world)
    ∧ (3 = 1 ∨ (∃ k' K', jobs gap_world !! k' = Some K' ∧ jid K' = 3 - 1) →
       maxjid (jobs w1) + 1 = maxjid (jobs gap_world)).
Proof.
  refine (C4_next_id_after_removing_max gap_world 11 12 2
            (mkJob 11 3 BG "c &") BG "d &" _ _ _ _ _ _).
  - lia.
  - vm_compute; reflexivity.
  - vm_compute; reflexivity.
  - simpl; lia.
  - intros k K Hk Hne.
    do 16 (destruct k as [|k]; [vm_compute in Hk; injection Hk as <-; simpl; lia |]).
    vm_compute in Hk. discriminate.
  - lia.
Defined.

(** C4 as stated fails in both directions.  With ids 1 and 3 in the table,
    removing the job with id 3 makes the next id 2, below the previous
    maximum.  With two jobs holding the maximum id 1, removing one of them
    makes the next id 2, above it. *)
Lemma C4_next_id_differs :
  (maxjid (jobs gap_world) = 3
   ∧ pid2jid (jobs gap_world) 11 = 3
   ∧ pid2jid (jobs (apply_ops [Del 11; Add 12 BG "d &"] gap_world)) 12 = 2)
  ∧ (maxjid (jobs twin_world) = 1
     ∧ pid2jid (jobs twin_world) 201 = 1
     ∧ pid2jid (jobs (apply_ops [Del 201; Add 300 BG "z &"] twin_world)) 300 = 2).
Proof. split; split_and!; vm_compute; reflexivity. Qed.

(** ** Distinct pids and job ids *)

Lemma insert_live_pids_unique js i p nj st cmd :
  first_pid js p = None → pids_unique js →
  pids_unique (<[i := mkJob p nj st cmd]> js).
Proof.
  intros Hfresh Huniq a b Ja Jb Ha Hb Hlive Heq.
  apply list_find_None in Hfresh.
  apply list_lookup_insert_Some in Ha as [(<- & <- & _)|(Hia & Ha)];
    apply list_lookup_insert_Some in Hb as [(<- & <- & _)|(Hib & Hb)].
  - done.
  - eapply Forall_lookup_1 in Hfresh; [| exact Hb]. simpl in *. congruence.
  - eapply Forall_lookup_1 in Hfresh; [| exact Ha]. simpl in *. congruence.
  - by eapply Huniq.
Qed.

Lemma insert_live_jids_unique js i p nj st cmd :
  maxjid js < nj → jids_unique js →
  jids_unique (<[i := mkJob p nj st cmd]> js).
Proof.
  intros Hnj Huniq a b Ja Jb Ha Hb Hla Hlb Heq.
  apply list_lookup_insert_Some in Ha as [(<- & <- & _)|(Hia & Ha)];
    apply list_lookup_insert_Some in Hb as [(<- & <- & _)|(Hib & Hb)].
  - done.
  - pose proof (maxjid_upper _ _ _ Hb). simpl in *. lia.
  - pose proof (maxjid_upper _ _ _ Ha). simpl in *. lia.
  - by eapply Huniq.
Qed.

Lemma clear_pids_unique js i J :
  pids_unique js → pids_unique (<[i := clearjob J]> js).
Proof.
  intros Huniq a b Ja Jb Ha Hb Hlive Heq.
  apply list_lookup_insert_Some in Ha as [(<- & <- & _)|(Hia & Ha)]; [done |].
  apply list_lookup_insert_Some in Hb as [(<- & <- & _)|(Hib & Hb)].
  - unfold live in Hlive. simpl in Heq. lia.
  - by eapply Huniq.
Qed.

Lemma clear_jids_unique js i J :
  jids_unique js → jids_unique (<[i := clearjob J]> js).
Proof.
  intros Huniq a b Ja Jb Ha Hb Hla Hlb Heq.
  apply list_lookup_insert_Some in Ha as [(<- & <- & _)|(Hia & Ha)]; [done |].
  apply list_lookup_insert_Some in Hb as [(<- & <- & _)|(Hib & Hb)]; [done |].
  by eapply Huniq.
Qed.

Lemma addjob_unique p st cmd w :
  getjobpid (jobs w) p = None → maxjid (jobs w) < nextjid w →
  pids_unique (jobs w) ∧ jids_unique (jobs w) →
  pids_unique (jobs (after (addjob p st cmd w)))
  ∧ jids_unique (jobs (after (addjob p st cmd w))).
Proof.
  intros Hfresh Hnext [Hp Hj]. destruct (Z.lt_ge_cases p 1) as [Hlt|Hge].
  - by rewrite addjob_rejects.
  - destruct (first_pid (jobs w) 0) as [[i J]|] eqn:Hfree.
    + rewrite (addjob_fills _ _ _ _ i J) by done. simpl.
      unfold getjobpid in Hfresh. destruct (Z.ltb_spec p 1); [lia |].
      apply fmap_None in Hfresh.
      auto using insert_live_pids_unique, insert_live_jids_unique.
    + by rewrite addjob_full.
Qed.

Lemma deletejob_unique p w :
  pids_unique (jobs w) ∧ jids_unique (jobs w) →
  pids_unique (jobs (after (deletejob p w)))
  ∧ jids_unique (jobs (after (deletejob p w))).
Proof.
  intros [Hp Hj]. destruct (Z.lt_ge_cases p 1) as [Hlt|Hge].
  - by rewrite deletejob_rejects.
  - destruct (first_pid (jobs w) p) as [[i J]|] eqn:Hfound.
    + rewrite (deletejob_clears _ _ i J) by done. simpl.
      auto using clear_pids_unique, clear_jids_unique.
    + by rewrite deletejob_missing.
Qed.

Lemma apply_ops_unique ops w :
  pids_unique (jobs w) ∧ jids_unique (jobs w) → admissible ops w →
  pids_unique (jobs (apply_ops ops w)) ∧ jids_unique (jobs (apply_ops ops w)).
Proof.
  revert w. induction ops as [|o ops IH]; intros w Hw Hadm; [done |].
  destruct Hadm as [[Hfresh Habove] Hrest]. simpl. apply IH; [| done].
  destruct o as [p st cmd|p]; simpl.
  - by apply addjob_unique.
  - by apply deletejob_unique.
Qed.

Lemma boot_jobs v : jobs (boot v).2 = replicate MAXJOBS (mkJob 0 0 UNDEF "").
Proof. reflexivity. Qed.

Lemma boot_unique v : pids_unique (jobs (boot v).2) ∧ jids_unique (jobs (boot v).2).
Proof.
  assert (∀ i J, jobs (boot v).2 !! i = Some J → ¬ live J) as Hdead.
  { intros i J Hi Hlive. apply Hlive. rewrite boot_jobs in Hi.
    by apply lookup_replicate in Hi as [-> _]. }
  split; intros i k Ji Jk Hi Hk Hlive; by destruct (Hdead _ _ Hi).
Qed.

Lemma maxjid_after_insert js i p nj st cmd :
  maxjid js < nj → maxjid (<[i := mkJob p nj st cmd]> js) ≤ nj.
Proof.
  intros Hnj. pose proof (maxjid_nonneg js).
  apply maxjid_bound; [lia |].
  intros k K [(-> & <- & _)|(_ & Hk)]%list_lookup_insert_Some; simpl; [lia |].
  pose proof (maxjid_upper _ _ _ Hk). lia.
Qed.

(** A [deletejob] that removes a job leaves [nextjid] above every job id. *)
Lemma deletejob_counter p w w' :
  deletejob p w = Ret true w' → maxjid (jobs w') < nextjid w'.
Proof.
  intros Hdel. destruct (Z.lt_ge_cases p 1) as [Hlt|Hge].
  - by rewrite deletejob_rejects in Hdel.
  - destruct (first_pid (jobs w) p) as [[i J]|] eqn:Hfound.
    + rewrite (deletejob_clears _ _ i J) in Hdel by done.
      injection Hdel as <-. simpl. lia.
    + by rewrite deletejob_missing in Hdel.
Qed.

(** An [addjob] that stores a job while [nextjid] is above every job id
    leaves it so, unless it wraps [nextjid] to 1. *)
Lemma addjob_counter p st cmd w w' :
  addjob p st cmd w = Ret true w' → maxjid (jobs w) < nextjid w →
  counter_ok w'.
Proof.
  intros Hadd Hnext. destruct (Z.lt_ge_cases p 1) as [Hlt|Hge].
  - by rewrite addjob_rejects in Hadd.
  - destruct (first_pid (jobs w) 0) as [[i J]|] eqn:Hfree.
    + rewrite (addjob_fills _ _ _ _ i J) in Hadd by done.
      injection Hadd as <-. unfold counter_ok, bump. simpl.
      pose proof (maxjid_after_insert (jobs w) i p _ st cmd Hnext).
      destruct (Z.gtb_spec (nextjid w + 1) (Z.of_nat MAXJOBS)); [by right | lia].
    + by rewrite addjob_full in Hadd.
Qed.

Lemma safe_op_unique o w :
  (pids_unique (jobs w) ∧ jids_unique (jobs w)) ∧ counter_ok w →
  safe_add o w →
  (pids_unique (jobs (after (apply_op o w)))
   ∧ jids_unique (jobs (after (apply_op o w))))
  ∧ counter_ok (after (apply_op o w)).
Proof.
  intros [Huniq Hctr] Hsafe. destruct o as [p st cmd|p]; simpl in *.
  - destruct (addjob p st cmd w) as [[] w'| |] eqn:Hadd.
    + destruct (Hsafe eq_refl) as [Hfresh Hwrap].
      assert (maxjid (jobs w) < nextjid w) as Hnext.
      { destruct Hctr as [?|H1]; [done |].
        pose proof (maxjid_nonneg (jobs w)). lia. }
      split; [| by apply (addjob_counter p st cmd w)].
      pose proof (addjob_unique p st cmd w Hfresh Hnext Huniq) as H.
      by rewrite Hadd in H.
    + assert (jobs w' = jobs w ∧ nextjid w' = nextjid w) as [Hjs Hnj].
      { destruct (Z.lt_ge_cases p 1) as [Hlt|Hge].
        - rewrite addjob_rejects in Hadd by done. by injection Hadd as <-.
        - destruct (first_pid (jobs w) 0) as [[i J]|] eqn:Hfree.
          + by rewrite (addjob_fills _ _ _ _ i J) in Hadd.
          + rewrite addjob_full in Hadd by done. by injection Hadd as <-. }
      unfold counter_ok. simpl. by rewrite Hjs, Hnj.
    + by destruct (addjob_returns p st cmd w) as (b & w' & Hret); rewrite Hret in Hadd.
    + by destruct (addjob_returns p st cmd w) as (b & w' & Hret); rewrite Hret in Hadd.
  - split; [by apply deletejob_unique |].
    destruct (deletejob p w) as [[] w'| |] eqn:Hdel; simpl.
    + left. by apply (deletejob_counter p w).
    + assert (w' = w) as ->; [| done].
      destruct (Z.lt_ge_cases p 1) as [Hlt|Hge].
      * rewrite deletejob_rejects in Hdel by done. by injection Hdel as <-.
      * destruct (first_pid (jobs w) p) as [[i J]|] eqn:Hfound.
        -- by rewrite (deletejob_clears _ _ i J) in Hdel.
        -- rewrite deletejob_missing in Hdel by done. by injection Hdel as <-.
    + by destruct (deletejob_returns p w) as (b & w' & Hret); rewrite Hret in Hdel.
    + by destruct (deletejob_returns p w) as (b & w' & Hret); rewrite Hret in Hdel.
Qed.

Lemma safe_ops_unique ops w :
  (pids_unique (jobs w) ∧ jids_unique (jobs w)) ∧ counter_ok w →
  along safe_add ops w →
  (pids_unique (jobs (apply_ops ops w)) ∧ jids_unique (jobs (apply_ops ops w)))
  ∧ counter_ok (apply_ops ops w).
Proof.
  revert w. induction ops as [|o ops IH]; intros w Hw Hsafe; [done |].
  destruct Hsafe as [Ho Hrest]. simpl. apply IH; [| done].
  by apply safe_op_unique.
Qed.

(** C2, as the code has it: along every sequence of [addjob] and [deletejob]
    calls from the initialized table in which every [addjob] that stores a
    job is called with a pid under which [getjobpid] finds no job, and not
    while [nextjid] is 1 and some slot holds a job id, no two live slots
    share a pid and no two live slots share a job id; and [nextjid] is above
    every job id of the table or is 1.  That excluded state is the one a
    wrap of [nextjid] leaves behind, and it lasts until the next [deletejob]
    that removes a job: after such a call [nextjid] is above every job id. *)
Theorem C2_unique_ids (v : bool) (ops : list op) :
  along safe_add ops (boot v).2 →
  pids_unique (jobs (apply_ops ops (boot v).2))
  ∧ jids_unique (jobs (apply_ops ops (boot v).2))
  ∧ counter_ok (apply_ops ops (boot v).2)
  ∧ (∀ w p w', deletejob p w = Ret true w' → maxjid (jobs w') < nextjid w').
Proof.
  intros Hsafe.
  destruct (safe_ops_unique ops (boot v).2) as [[Hp Hj] Hctr];
    [split; [apply boot_unique | by left] | done |].
  split_and!; [done | done | done |].
  intros w p w'. apply deletejob_counter.
Qed.

(** The table is filled, which wraps [nextjid]; a seventeenth [addjob] finds
    no free slot; a job is removed and one is added under job id 17. *)
Lemma C2_unique_ids_witness :
  along safe_add (sixteen_adds ++ [Add 117 BG "w &"; Del 102; Add 200 BG "x &"]) w0
  ∧ pids_unique (jobs (apply_ops (sixteen_adds
                        ++ [Add 117 BG "w &"; Del 102; Add 200 BG "x &"]) w0))
  ∧ jids_unique (jobs (apply_ops (sixteen_adds
                        ++ [Add 117 BG "w &"; Del 102; Add 200 BG "x &"]) w0)).
Proof.
  assert (along safe_add
            (sixteen_adds ++ [Add 117 BG "w &"; Del 102; Add 200 BG "x &"]) w0)
    as Hsafe.
  { vm_compute. repeat split; intros [H1 H2];
      first [ discriminate H1 | discriminate H2
            | match goal with H : false = true |- _ => discriminate H end ]. }
  split; [exact Hsafe |].
  destruct (C2_unique_ids false _ Hsafe) as (Hp & Hj & _).
  by split.
Defined.

(** C2 as stated fails on both counts.  [addjob] does not look for the pid
    it is given: two calls with pid 5 fill two slots, with [nextjid] above
    every job id at both.  And with a fresh pid at every call, the wrap of
    [nextjid] at [MAXJOBS] hands out id 1 while the job with pid 101 still
    holds it. *)
Lemma C2_duplicate_ids :
  (along counter_above [Add 5 BG "a &"; Add 5 BG "b &"] w0
   ∧ ¬ pids_unique (jobs (apply_ops [Add 5 BG "a &"; Add 5 BG "b &"] w0)))
  ∧ (along fresh_pid wrap_ops w0
     ∧ ¬ jids_unique (jobs (apply_ops wrap_ops w0))).
Proof.
  split; (split; [vm_compute; repeat split; reflexivity |]); intros Huniq.
  - specialize (Huniq 0%nat 1%nat (mkJob 5 1 BG "a &") (mkJob 5 2 BG "b &")).
    discriminate Huniq; [vm_compute; reflexivity .. | done | done].
  - specialize (Huniq 0%nat 2%nat (mkJob 101 1 BG "sleep 60 &")
                               (mkJob 201 1 BG "y &")).
    discriminate Huniq; [vm_compute; reflexivity .. | done | done | done].
Qed.

(** ** The table keeps its [MAXJOBS] slots

    The scans of the helper routines run over the whole list; in every
    state the shell reaches this is the [for (i = 0; i < MAXJOBS; i++)] of
    the source. *)

#[global] Instance same_length_rel : StepRel same_length.
Proof.
  split; unfold same_length.
  - done.
  - intros w1 w2 w3 H12 H23. by rewrite H23.
  - done.
Qed.

Lemma same_length_update f :
  (∀ js, length (f js) = length js) → preserves same_length (update_jobs f).
Proof. intros Hf w. apply Hf. Qed.

Lemma same_length_set_nextjid n : preserves same_length (modify (set_nextjid n)).
Proof. by intros w. Qed.

Ltac same_length_tac :=
  preserves_tac;
  try solve [ apply same_length_set_nextjid
            | apply same_length_update; intros;
              first [apply length_insert | apply length_alter] ].

Lemma same_length_addjob p st cmd : preserves same_length (addjob p st cmd).
Proof. unfold addjob. destruct (p <? 1); same_length_tac. Qed.

Lemma same_length_deletejob p : preserves same_length (deletejob p).
Proof. unfold deletejob. destruct (p <? 1); same_length_tac. Qed.

Lemma same_length_sigchld_handler reaped :
  preserves same_length (sigchld_handler reaped).
Proof.
  induction reaped as [|[p status] reaped IH]; simpl; [same_length_tac |].
  destruct (p >? 0); [| same_length_tac].
  unfold sigchld_round. same_length_tac; try apply same_length_deletejob.
  intros _. apply IH.
Qed.

Lemma same_length_transition c l m :
  transition c l = Some m → preserves same_length m.
Proof.
  destruct l as [argv bg cmd child| |kill_err|reaped| | |]; simpl.
  - destruct c; try done. destruct argv as [|a0 argv]; simpl.
    { intros [= <-]. same_length_tac. }
    unfold builtin_cmd, do_bgfg.
    repeat (destruct (String.eqb _ _); simpl;
            [intros [= <-]; same_length_tac;
             first [apply preserves_listjobs | apply preserves_do_bgfg_lookup];
             exact _ |]).
    destruct (child =? 0); [done |].
    destruct bg; simpl; intros [= <-]; same_length_tac;
      apply same_length_addjob.
  - destruct c; try done. intros [= <-]. same_length_tac.
  - destruct c as [|argv i|argv i|argv i|p cmd|p| |]; simpl; try done.
    + intros [= <-]. same_length_tac. apply preserves_do_bgfg_cont. exact _.
    + intros [= <-]. unfold do_bgfg_store.
      repeat (destruct (String.eqb _ _)); same_length_tac.
    + repeat (destruct (String.eqb _ _)); intros [= <-]; same_length_tac;
        apply preserves_deref; exact _.
    + intros [= <-]. same_length_tac.
    + intros [= <-]. unfold waitfg. same_length_tac.
  - destruct (running c); [| done]. intros [= <-]. same_length_tac.
    apply same_length_sigchld_handler.
  - destruct (running c); [| done]. intros [= <-]. same_length_tac.
    apply preserves_sigint_handler. exact _.
  - destruct (running c); [| done]. intros [= <-]. same_length_tac.
    apply preserves_sigtstp_handler. exact _.
  - destruct (running c); [| done]. intros [= <-]. same_length_tac.
    apply preserves_sigquit_handler. exact _.
Qed.

Lemma settle_after o : (settle o).2 = after o.
Proof. by destruct o. Qed.

Lemma step_length cf l cf' :
  step cf l = Some cf' → length (jobs cf'.2) = length (jobs cf.2).
Proof.
  unfold step. destruct (transition cf.1 l) as [m|] eqn:Hm; [| done].
  simpl. intros [= <-]. rewrite settle_after.
  apply (same_length_transition _ _ _ Hm).
Qed.

(** In every state the shell reaches, the table has its [MAXJOBS] slots. *)
Lemma run_length v ls cf :
  run (boot v) ls = Some cf → length (jobs cf.2) = MAXJOBS.
Proof.
  assert (∀ cf0, run cf0 ls = Some cf → length (jobs cf.2) = length (jobs cf0.2))
    as Hrun.
  { induction ls as [|l ls IH]; intros cf0; simpl.
    - by intros [= <-].
    - destruct (step cf0 l) as [cf1|] eqn:Hstep; simpl; [| done].
      intros Hrest. rewrite (IH _ Hrest). by eapply step_length. }
  intros H. by rewrite (Hrun _ H).
Qed.

(** ** The terminal signals: [sigint_handler] and [sigtstp_handler] *)

#[global] Instance same_table_rel : StepRel same_table.
Proof.
  split; unfold same_table.
  - done.
  - intros w1 w2 w3 [-> ->] [-> ->]. done.
  - done.
Qed.

Lemma fgpid_the_fg_job js i J :
  js !! i = Some J → state J = FG → one_fg js → fgpid js = pid J.
Proof.
  intros Hi HJ Hone. unfold fgpid.
  destruct (list_find _ js) as [[k K]|] eqn:Hfind.
  - apply list_find_Some in Hfind as (Hk & HK & _).
    assert (k = i) as -> by (by eapply Hone).
    congruence.
  - apply list_find_None in Hfind.
    by eapply Forall_lookup_1 in Hfind.
Qed.

Lemma fgpid_no_live_fg js :
  (∀ i J, js !! i = Some J → state J = FG → pid J = 0) → fgpid js = 0.
Proof.
  intros Hnone. unfold fgpid.
  destruct (list_find _ js) as [[k K]|] eqn:Hfind; [| done].
  apply list_find_Some in Hfind as (Hk & HK & _). eauto.
Qed.

Lemma sigint_handler_eq w :
  sigint_handler w =
    Ret tt (if fgpid (jobs w) =? 0 then w
            else add_out (Kill (- fgpid (jobs w)) SIGINT) w).
Proof. unfold sigint_handler. unfold_m. by destruct (fgpid (jobs w) =? 0). Qed.

Lemma sigtstp_handler_eq w :
  sigtstp_handler w =
    Ret tt (if fgpid (jobs w) =? 0 then w
            else add_out (Kill (- fgpid (jobs w)) SIGTSTP) w).
Proof. unfold sigtstp_handler. unfold_m. by destruct (fgpid (jobs w) =? 0). Qed.

(** C9: on every table, [sigint_handler] and [sigtstp_handler] return with
    every slot of the table (and [nextjid]) as it was.  When the table's
    one [FG] job has pid [p > 0], all they do is one [kill] of SIGINT,
    respectively SIGTSTP, to the target [-p], the job's process group;
    when no live slot is in state [FG], they do nothing at all. *)
Theorem C9_terminal_signals_frame (w : world) :
  (∃ w1 w2, sigint_handler w = Ret tt w1 ∧ sigtstp_handler w = Ret tt w2
            ∧ jobs w1 = jobs w ∧ nextjid w1 = nextjid w
            ∧ jobs w2 = jobs w ∧ nextjid w2 = nextjid w)
  ∧ (∀ i J, jobs w !! i = Some J → state J = FG → 0 < pid J → one_fg (jobs w) →
       sigint_handler w = Ret tt (add_out (Kill (- pid J) SIGINT) w)
       ∧ sigtstp_handler w = Ret tt (add_out (Kill (- pid J) SIGTSTP) w)
       ∧ - pid J < 0)
  ∧ ((∀ i J, jobs w !! i = Some J → state J = FG → pid J = 0) →
       sigint_handler w = Ret tt w ∧ sigtstp_handler w = Ret tt w).
Proof.
  split_and!.
  - eexists _, _. rewrite sigint_handler_eq, sigtstp_handler_eq.
    split_and!; try reflexivity; by destruct (fgpid (jobs w) =? 0).
  - intros i J Hi HJ Hpos Hone.
    rewrite sigint_handler_eq, sigtstp_handler_eq.
    rewrite (fgpid_the_fg_job _ _ _ Hi HJ Hone).
    destruct (Z.eqb_spec (pid J) 0); [lia |]. split_and!; [done | done | lia].
  - intros Hnone.
    rewrite sigint_handler_eq, sigtstp_handler_eq.
    by rewrite (fgpid_no_live_fg _ Hnone).
Qed.

Lemma C9_terminal_signals_frame_witness :
  sigint_handler fg_config.2 = Ret tt (add_out (Kill (-300) SIGINT) fg_config.2)
  ∧ sigtstp_handler fg_config.2 = Ret tt (add_out (Kill (-300) SIGTSTP) fg_config.2)
  ∧ sigint_handler w0 = Ret tt w0 ∧ sigtstp_handler w0 = Ret tt w0.
Proof.
  destruct (C9_terminal_signals_frame fg_config.2) as (_ & Hfg & _).
  destruct (C9_terminal_signals_frame w0) as (_ & _ & Hnone).
  destruct (Hfg 0%nat (mkJob 300 1 FG "/bin/cat")) as (Hint & Htstp & _).
  - vm_compute; reflexivity.
  - reflexivity.
  - simpl; lia.
  - intros i k Ji Jk Hi Hk HJi HJk.
    destruct i as [|i]; destruct k as [|k]; [done | exfalso .. ].
    + do 15 (destruct k as [|k]; [vm_compute in Hk; injection Hk as <-; done |]).
      vm_compute in Hk. discriminate.
    + do 15 (destruct i as [|i]; [vm_compute in Hi; injection Hi as <-; done |]).
      vm_compute in Hi. discriminate.
    + do 15 (destruct i as [|i]; [vm_compute in Hi; injection Hi as <-; done |]).
      vm_compute in Hi. discriminate.
  - split_and!; [exact Hint | exact Htstp | apply Hnone ..].
    all: intros i J Hi HJ.
    all: do 16 (destruct i as [|i]; [vm_compute in Hi; injection Hi as <-; done |]).
    all: vm_compute in Hi; discriminate.
Defined.

(** ** What the SIGCHLD handler does to the states of the slots

    [deletejob] clears a slot and [currjob->state = ST] stops one: neither
    puts a slot into state [FG] or [BG]. *)

Section Shrinks.
Context (s : jstate) (s_not_undef : s ≠ UNDEF) (s_not_stopped : s ≠ ST).

#[local] Instance shrinks_rel : StepRel (no_entry s).
Proof.
  split.
  - intros w k J. eauto.
  - intros w1 w2 w3 H12 H23 k J3 Hk Hs.
    destruct (H23 k J3 Hk Hs) as (J2 & Hk2 & Hs2 & <-).
    apply (H12 k J2 Hk2 Hs2).
  - intros w e k J. simpl. eauto.
Qed.

Lemma shrinks_clear js i J : shrinks s js (<[i := clearjob J]> js).
Proof.
  intros k K [(-> & <- & _)|(_ & Hk)]%list_lookup_insert_Some Hs.
  - simpl in Hs. congruence.
  - eauto.
Qed.

Lemma shrinks_stop js i : shrinks s js (set_state i ST js).
Proof.
  intros k K Hk Hs. unfold set_state in Hk.
  destruct (decide (i = k)) as [->|Hne].
  - rewrite list_lookup_alter_eq in Hk.
    destruct (js !! k); simpl in Hk; [| done].
    injection Hk as <-. simpl in Hs. congruence.
  - rewrite list_lookup_alter_ne in Hk by done. eauto.
Qed.

Lemma preserves_deletejob p :
  preserves (no_entry s) (deletejob p).
Proof.
  intros w. destruct (Z.lt_ge_cases p 1) as [Hp|Hp].
  - rewrite deletejob_rejects by done. apply (rel_refl (R := no_entry s)).
  - destruct (first_pid (jobs w) p) as [[i J]|] eqn:Hfound.
    + rewrite (deletejob_clears _ _ i J) by done. apply shrinks_clear.
    + rewrite deletejob_missing by done. apply (rel_refl (R := no_entry s)).
Qed.

Lemma preserves_stop i :
  preserves (no_entry s) (update_jobs (set_state i ST)).
Proof. intros w. apply shrinks_stop. Qed.

Lemma preserves_sigchld_round p status :
  preserves (no_entry s) (sigchld_round p status).
Proof.
  unfold sigchld_round. preserves_tac;
    solve [apply preserves_deletejob | apply preserves_stop].
Qed.

Lemma preserves_sigchld_handler reaped :
  preserves (no_entry s) (sigchld_handler reaped).
Proof.
  induction reaped as [|[p status] reaped IH]; simpl.
  - apply preserves_ret. exact _.
  - destruct (p >? 0); preserves_tac; [apply preserves_sigchld_round | done].
Qed.

(** A signal handler runs: the control loop stays at its program point,
    or the shell is gone. *)
Lemma signal_step c w l cf' :
  step (c, w) l = Some cf' →
  match l with Chld _ | Int | Tstp | Quit => True | _ => False end →
  shrinks s (jobs w) (jobs cf'.2) ∧ (cf'.1 = c ∨ running cf'.1 = false).
Proof.
  intros Hstep Hl. unfold step in Hstep. simpl in Hstep.
  destruct l; try done; simpl in Hstep;
    destruct (running c); simpl in Hstep; try done;
    injection Hstep as <-.
  - destruct (settle_then (no_entry s) (sigchld_handler reaped) (λ _, c) w) as [HR [[_ Hc]|Hc]];
      [apply preserves_sigchld_handler | auto ..].
  - destruct (settle_then (no_entry s) sigint_handler (λ _, c) w) as [HR [[_ Hc]|Hc]];
      [apply preserves_sigint_handler; exact _ | auto ..].
  - destruct (settle_then (no_entry s) sigtstp_handler (λ _, c) w) as [HR [[_ Hc]|Hc]];
      [apply preserves_sigtstp_handler; exact _ | auto ..].
  - destruct (settle_then (no_entry s) sigquit_handler (λ _, c) w) as [HR [[_ Hc]|Hc]];
      [apply preserves_sigquit_handler; exact _ | auto ..].
Qed.
End Shrinks.

(** ** The foreground invariant of the control loop *)

Lemma no_fg_one_fg js : no_fg js → one_fg js.
Proof. intros Hno i k Ji Jk Hi _ HJi. by destruct (Hno i Ji). Qed.

Lemma only_slot_one_fg js i :
  (∀ k J, js !! k = Some J → state J = FG → k = i) → one_fg js.
Proof.
  intros Honly a b Ja Jb Ha Hb HJa HJb.
  by rewrite (Honly a Ja), (Honly b Jb).
Qed.

Lemma ctl_inv_one_fg c js : ctl_inv c js → one_fg js.
Proof.
  destruct c; simpl; auto using no_fg_one_fg.
  - destruct (String.eqb _ _); eauto using no_fg_one_fg, only_slot_one_fg.
  - by intros [? _].
Qed.

Lemma ctl_inv_halted c js : running c = false → one_fg js → ctl_inv c js.
Proof. by destruct c. Qed.

Lemma shrinks_no_fg js js' : shrinks FG js js' → no_fg js → no_fg js'.
Proof.
  intros Hsh Hno k J' Hk HJ'.
  destruct (Hsh k J' Hk HJ') as (J & HJ & Hs & _). by destruct (Hno k J).
Qed.

Lemma shrinks_one_fg js js' : shrinks FG js js' → one_fg js → one_fg js'.
Proof.
  intros Hsh Hone a b Ja Jb Ha Hb HJa HJb.
  destruct (Hsh a Ja Ha HJa) as (Ka & HKa & Hsa & _).
  destruct (Hsh b Jb Hb HJb) as (Kb & HKb & Hsb & _).
  by eapply Hone.
Qed.

Lemma ctl_inv_shrinks c js js' : shrinks FG js js' → ctl_inv c js → ctl_inv c js'.
Proof.
  intros Hsh. destruct c; simpl; eauto using shrinks_no_fg, shrinks_one_fg.
  - destruct (String.eqb _ _); [| eauto using shrinks_no_fg].
    intros Honly k J' Hk HJ'.
    destruct (Hsh k J' Hk HJ') as (J & HJ & Hs & _). eauto.
  - intros [Hone Hpid]. split; [eauto using shrinks_one_fg |].
    intros k J' Hk HJ'.
    destruct (Hsh k J' Hk HJ') as (J & HJ & Hs & <-). eauto.
Qed.

Lemma same_table_shrinks s w w' : same_table w w' → shrinks s (jobs w) (jobs w').
Proof. intros [-> _] k J. eauto. Qed.

(** A slot written by [addjob] is the only new one. *)
Lemma insert_fg_job js i p nj cmd :
  no_fg js →
  ctl_inv (WaitFg p) (<[i := mkJob p nj FG cmd]> js).
Proof.
  intros Hno.
  assert (∀ k J, <[i := mkJob p nj FG cmd]> js !! k = Some J → state J = FG →
                 k = i ∧ pid J = p) as Honly.
  { intros k J [(-> & <- & _)|(_ & Hk)]%list_lookup_insert_Some HJ; [done |].
    by destruct (Hno k J). }
  split.
  - apply (only_slot_one_fg _ i). intros k J Hk HJ. by apply (Honly k J).
  - intros k J Hk HJ. by apply (Honly k J).
Qed.

Lemma insert_bg_job js i p nj cmd :
  no_fg js → no_fg (<[i := mkJob p nj BG cmd]> js).
Proof.
  intros Hno k J [(-> & <- & _)|(_ & Hk)]%list_lookup_insert_Some; [done |].
  by apply (Hno k J).
Qed.

(** [addjob] followed by the program point [c]: the call returns, and the
    table is as it was or has the new job in its first free slot. *)
Lemma addjob_then p st cmd c w :
  ∃ w', settle ((addjob p st cmd ≫= λ _, mret c) w) = (c, w')
        ∧ (jobs w' = jobs w
           ∨ ∃ i, jobs w' = <[i := mkJob p (nextjid w) st cmd]> (jobs w)).
Proof.
  unfold mbind, M_bind. destruct (Z.lt_ge_cases p 1) as [Hp|Hp].
  - rewrite addjob_rejects by done. eauto.
  - destruct (first_pid (jobs w) 0) as [[i J]|] eqn:Hfree.
    + rewrite (addjob_fills _ _ _ _ i J) by done. simpl. eauto.
    + rewrite addjob_full by done. eauto.
Qed.

Lemma line_step_inv w argv bg cmd child cf' :
  no_fg (jobs w) →
  step (Prompt, w) (Line argv bg cmd child) = Some cf' →
  ctl_inv cf'.1 (jobs cf'.2).
Proof.
  intros Hno Hstep. unfold step in Hstep. simpl in Hstep.
  destruct argv as [|a0 argv]; simpl in Hstep.
  { by injection Hstep as <-. }
  unfold builtin_cmd in Hstep. change (argv0 (a0 :: argv)) with a0 in Hstep.
  destruct (String.eqb a0 "quit"); simpl in Hstep.
  { injection Hstep as <-. simpl. by apply no_fg_one_fg. }
  destruct (String.eqb a0 "jobs"); simpl in Hstep.
  { injection Hstep as <-.
    destruct (settle_then same_table listjobs (λ _, Prompt) w)
      as [HR [[_ ->]|Hc]]; [apply preserves_listjobs; exact _ | |].
    - simpl. eauto using shrinks_no_fg, same_table_shrinks.
    - apply ctl_inv_halted; [done |].
      eauto using shrinks_one_fg, same_table_shrinks, no_fg_one_fg. }
  assert (ctl_inv (settle (do_bgfg (a0 :: argv) w)).1
                  (jobs (settle (do_bgfg (a0 :: argv) w)).2)) as Hbgfg.
  { destruct (settle_then same_table (do_bgfg_lookup (a0 :: argv))
                (λ r, match r with
                      | Some i => BgfgFound (a0 :: argv) i
                      | None => Prompt
                      end) w)
      as [HR [[r Hr]|Hc]]; [apply preserves_do_bgfg_lookup; exact _ | |];
      unfold do_bgfg.
    - rewrite Hr. destruct r; simpl; eauto using shrinks_no_fg, same_table_shrinks.
    - apply ctl_inv_halted; [done |].
      eauto using shrinks_one_fg, same_table_shrinks, no_fg_one_fg. }
  destruct (String.eqb a0 "bg"); simpl in Hstep; [by injection Hstep as <- |].
  destruct (String.eqb a0 "fg"); simpl in Hstep; [by injection Hstep as <- |].
  destruct (child =? 0); [done |].
  destruct bg; simpl in Hstep; injection Hstep as <-.
  - destruct (addjob_then child BG cmd (AckBg child cmd) w) as (w' & -> & Hjobs).
    simpl. destruct Hjobs as [->|[i ->]]; auto using insert_bg_job.
  - destruct (addjob_then child FG cmd (WaitFg child) w) as (w' & -> & Hjobs).
    cbn [fst snd]. destruct Hjobs as [->|[i ->]].
    + split; [by apply no_fg_one_fg |]. intros k J Hk HJ. by destruct (Hno k J).
    + by apply insert_fg_job.
Qed.

Lemma set_state_lookup i s js k J :
  set_state i s js !! k = Some J →
  (k = i ∧ state J = s) ∨ (k ≠ i ∧ js !! k = Some J).
Proof.
  unfold set_state. intros Hk. destruct (decide (i = k)) as [->|Hne].
  - rewrite list_lookup_alter_eq in Hk.
    destruct (js !! k); simpl in Hk; [| done]. injection Hk as <-. by left.
  - rewrite list_lookup_alter_ne in Hk by done. right. by split.
Qed.

Lemma waitfg_over js p : ctl_inv (WaitFg p) js → fgpid js ≠ p → no_fg js.
Proof.
  intros [Hone Hpid] Hfg i J Hi HJ. apply Hfg.
  rewrite (fgpid_the_fg_job js i J) by done. eauto.
Qed.

Lemma go_step_inv c w kill_err cf' :
  ctl_inv c (jobs w) →
  step (c, w) (Go kill_err) = Some cf' →
  ctl_inv cf'.1 (jobs cf'.2).
Proof.
  intros Hinv Hstep. unfold step in Hstep. simpl in Hstep.
  destruct c as [|argv i|argv i|argv i|p cmd|p| |]; simpl in *; try done.
  - (* BgfgFound *)
    injection Hstep as <-.
    destruct (settle_then same_table (do_bgfg_cont i kill_err)
                (λ _, BgfgStore argv i) w)
      as [HR [[_ ->]|Hc]]; [apply preserves_do_bgfg_cont; exact _ | |].
    + simpl. eauto using shrinks_no_fg, same_table_shrinks.
    + apply ctl_inv_halted; [done |].
      eauto using shrinks_one_fg, same_table_shrinks, no_fg_one_fg.
  - (* BgfgStore *)
    injection Hstep as <-. unfold do_bgfg_store.
    destruct (String.eqb (argv0 argv) "fg") eqn:Hfg;
      [| destruct (String.eqb (argv0 argv) "bg") eqn:Hbg];
      unfold_m; rewrite ?Hfg.
    + intros k J [[-> _]|[_ Hk]]%set_state_lookup HJ; [done |].
      by destruct (Hinv k J).
    + intros k J [[-> HJ]|[_ Hk]]%set_state_lookup; [by rewrite HJ |].
      by apply (Hinv k J).
    + done.
  - (* BgfgStored *)
    destruct (String.eqb (argv0 argv) "fg") eqn:Hfg;
      [| destruct (String.eqb (argv0 argv) "bg") eqn:Hbg];
      injection Hstep as <-; unfold deref; unfold_m.
    + destruct (jobs w !! i) as [J|] eqn:Hi; simpl.
      * split; [by eapply only_slot_one_fg |].
        intros k K Hk HK. rewrite (Hinv k K Hk HK) in Hk. congruence.
      * by eapply only_slot_one_fg.
    + destruct (jobs w !! i) as [J|] eqn:Hi; simpl; auto using no_fg_one_fg.
    + done.
  - (* AckBg *)
    injection Hstep as <-. by unfold_m.
  - (* WaitFg *)
    injection Hstep as <-. unfold waitfg. unfold_m.
    destruct (Z.eqb_spec (fgpid (jobs w)) p) as [Heq|Hne]; simpl; [done |].
    by eapply waitfg_over.
Qed.

Lemma step_inv cf l cf' :
  ctl_inv cf.1 (jobs cf.2) → step cf l = Some cf' → ctl_inv cf'.1 (jobs cf'.2).
Proof.
  destruct cf as [c w]. simpl. intros Hinv Hstep.
  assert (FG ≠ UNDEF ∧ FG ≠ ST) as [Hu Hs] by done.
  destruct l as [argv bg cmd child| |kill_err|reaped| | |].
  4-7: destruct (signal_step FG Hu Hs c w _ cf' Hstep I) as [Hsh [->|Hc]];
    [ by eapply ctl_inv_shrinks
    | apply ctl_inv_halted; eauto using shrinks_one_fg, ctl_inv_one_fg ].
  - destruct c; try done. by eapply line_step_inv.
  - destruct c; try done. unfold step in Hstep. simpl in Hstep.
    injection Hstep as <-. simpl. by apply no_fg_one_fg.
  - by eapply go_step_inv.
Qed.

Lemma run_inv ls cf cf' :
  ctl_inv cf.1 (jobs cf.2) → run cf ls = Some cf' → ctl_inv cf'.1 (jobs cf'.2).
Proof.
  revert cf. induction ls as [|l ls IH]; intros cf Hinv Hrun; simpl in Hrun.
  - by injection Hrun as <-.
  - destruct (step cf l) as [cf1|] eqn:Hstep; simpl in Hrun; [| done].
    eauto using step_inv.
Qed.

Lemma boot_inv v : ctl_inv (boot v).1 (jobs (boot v).2).
Proof.
  rewrite boot_jobs. intros i J Hi.
  by apply lookup_replicate in Hi as [-> _].
Qed.

(** C1: in every state the shell reaches from its start, whatever command
    lines, moves of the control loop and signals are interleaved, at most
    one slot of the job table is in state [FG]. *)
Theorem C1_at_most_one_foreground (v : bool) (ls : list label) (cf : config) :
  run (boot v) ls = Some cf → one_fg (jobs cf.2).
Proof.
  intros Hrun. eapply ctl_inv_one_fg, run_inv; [apply boot_inv | exact Hrun].
Qed.

Lemma C1_at_most_one_foreground_witness :
  run (boot false) (fg_trace ++ [Go None; Go None; Tstp; Chld [(100, 5247)]])
    = Some (WaitFg 100, after (sigchld_handler [(100, 5247)]
                                 (after (sigtstp_handler after_fg.2))))
  ∧ one_fg (jobs (after (sigchld_handler [(100, 5247)]
                           (after (sigtstp_handler after_fg.2))))).
Proof.
  assert (run (boot false) (fg_trace ++ [Go None; Go None; Tstp; Chld [(100, 5247)]])
          = Some (WaitFg 100, after (sigchld_handler [(100, 5247)]
                                       (after (sigtstp_handler after_fg.2)))))
    as Hrun by (vm_compute; reflexivity).
  split; [exact Hrun |].
  exact (C1_at_most_one_foreground false _ _ Hrun).
Defined.

(** ** Direct changes between [FG] and [BG] *)

(** C6, as the code has it: in no step of any run does a slot go from [FG]
    to [BG]; a foreground job gets to the background only by being stopped
    first, or by being removed and launched again.  (The change from [BG]
    to [FG] is made directly by the [fg] built-in.) *)
Theorem C6_no_foreground_to_background
    (v : bool) (ls : list label) (cf cf' : config) (l : label)
    (k : nat) (J J' : Job) :
  run (boot v) ls = Some cf → step cf l = Some cf' →
  jobs cf.2 !! k = Some J → jobs cf'.2 !! k = Some J' →
  state J = FG → state J' ≠ BG.
Proof.
  intros Hrun Hstep Hk Hk' HJ HJ'.
  pose proof (run_inv _ _ _ (boot_inv v) Hrun) as Hinv.
  destruct cf as [c w]. simpl in *.
  assert (BG ≠ UNDEF ∧ BG ≠ ST) as [Hu Hs] by done.
  destruct l as [argv bg cmd child| |kill_err|reaped| | |].
  4-7: destruct (signal_step BG Hu Hs c w _ cf' Hstep I) as [Hsh _];
    destruct (Hsh k J' Hk' HJ') as (J0 & HJ0 & Hs0 & _); congruence.
  - destruct c; try done. by destruct (Hinv k J).
  - destruct c; try done. by destruct (Hinv k J).
  - unfold step in Hstep. simpl in Hstep.
    destruct c as [|argv i|argv i|argv i|p cmd|p| |]; simpl in *; try done;
      try (by destruct (Hinv k J)).
    + (* BgfgStored *)
      destruct (String.eqb (argv0 argv) "fg") eqn:Hfg;
        [| by destruct (Hinv k J)].
      injection Hstep as <-. revert Hk'. unfold deref. unfold_m.
      destruct (jobs w !! i); simpl; congruence.
    + (* WaitFg *)
      injection Hstep as <-. revert Hk'. unfold waitfg. unfold_m. congruence.
Qed.

Lemma C6_no_foreground_to_background_witness :
  run (boot false) [Line ["/bin/cat"] false "/bin/cat" 300] = Some fg_config
  ∧ step fg_config (Chld [(300, 5247)])
    = Some (WaitFg 300, after (sigchld_handler [(300, 5247)] fg_config.2))
  ∧ jobs fg_config.2 !! 0%nat = Some (mkJob 300 1 FG "/bin/cat")
  ∧ jobs (after (sigchld_handler [(300, 5247)] fg_config.2)) !! 0%nat
    = Some (mkJob 300 1 ST "/bin/cat")
  ∧ ST ≠ BG.
Proof.
  assert (run (boot false) [Line ["/bin/cat"] false "/bin/cat" 300] = Some fg_config)
    as Hrun by (vm_compute; reflexivity).
  assert (step fg_config (Chld [(300, 5247)])
          = Some (WaitFg 300, after (sigchld_handler [(300, 5247)] fg_config.2)))
    as Hstep by (vm_compute; reflexivity).
  assert (jobs fg_config.2 !! 0%nat = Some (mkJob 300 1 FG "/bin/cat"))
    as Hk by (vm_compute; reflexivity).
  assert (jobs (WaitFg 300, after (sigchld_handler [(300, 5247)] fg_config.2)).2 !! 0%nat
          = Some (mkJob 300 1 ST "/bin/cat"))
    as Hk' by (vm_compute; reflexivity).
  split_and!; [exact Hrun | exact Hstep | exact Hk | exact Hk' |].
  exact (C6_no_foreground_to_background false _ _ _ _ 0%nat _ _
           Hrun Hstep Hk Hk' eq_refl).
Defined.

(** C6 as stated fails: [fg %1] on a running background job stores [FG]
    into a slot that is in state [BG]. *)
Lemma C6_background_to_foreground :
  run (boot false) fg_trace = Some before_fg
  ∧ step before_fg (Go None) = Some after_fg
  ∧ jobs before_fg.2 !! 0%nat = Some (mkJob 100 1 BG "/bin/sleep 60 &")
  ∧ jobs after_fg.2 !! 0%nat = Some (mkJob 100 1 FG "/bin/sleep 60 &").
Proof. split_and!; vm_compute; reflexivity. Qed.

(** ** Decimal tokens: [atoi] reads back what [%d] prints *)

Lemma atoi_digits_acc d acc :
  atoi_digits (Z.pos acc) (NilEmpty.string_of_uint d) = Z.pos (Pos.of_uint_acc d acc).
Proof.
  revert acc. induction d as [|d IH|d IH|d IH|d IH|d IH|d IH|d IH|d IH|d IH|d IH];
    intros acc; [reflexivity | ..];
    cbn [NilEmpty.string_of_uint atoi_digits Pos.of_uint_acc];
    change (isdigit _) with true; cbn match; rewrite <- IH; f_equal;
    cbv [code N_of_ascii N_of_digits Z.of_N]; simpl; lia.
Qed.

Lemma atoi_digits_uint d :
  atoi_digits 0 (NilEmpty.string_of_uint d) = Z.of_N (Pos.of_uint d).
Proof.
  induction d as [|d IH|d IH|d IH|d IH|d IH|d IH|d IH|d IH|d IH|d IH];
    [reflexivity | exact IH | ..];
    cbn [NilEmpty.string_of_uint atoi_digits Pos.of_uint Z.of_N];
    change (isdigit _) with true; cbn match; apply atoi_digits_acc.
Qed.

Lemma fmt_d_pos p : fmt_d (Z.pos p) = NilEmpty.string_of_uint (Pos.to_uint p).
Proof.
  unfold fmt_d. simpl. unfold NilZero.string_of_uint.
  pose proof (DecimalPos.Unsigned.to_uint_nonnil p).
  by destruct (Pos.to_uint p).
Qed.

Lemma uint_string_head d :
  d ≠ Decimal.Nil →
  ∃ c rest, NilEmpty.string_of_uint d = String c rest
            ∧ isdigit c = true
            ∧ decimal (String c rest) = atoi_digits 0 (String c rest).
Proof. destruct d; [done | intros _; eexists _, _; by split_and! ..]. Qed.

Lemma decimal_fmt_d n : 1 ≤ n → decimal (fmt_d n) = n.
Proof.
  destruct n as [|p|p]; try lia. intros _. rewrite fmt_d_pos.
  destruct (uint_string_head (Pos.to_uint p)) as (c & rest & Hs & _ & Hdec);
    [apply DecimalPos.Unsigned.to_uint_nonnil |].
  rewrite Hs, Hdec, <- Hs, atoi_digits_uint, DecimalPos.Unsigned.of_to. done.
Qed.

(** Within the range of [int], [atoi] yields the integer the numeral denotes. *)
Lemma atoi_decimal s :
  - INT_MAX - 1 ≤ decimal s ≤ INT_MAX → atoi s = decimal s.
Proof.
  unfold atoi, strtol, to_int, INT_MAX, LONG_MIN, LONG_MAX. intros Hs.
  rewrite Z.min_r, Z.max_r by lia.
  rewrite Z.mod_small by lia. lia.
Qed.

Lemma atoi_fmt_d n : 1 ≤ n ≤ INT_MAX → atoi (fmt_d n) = n.
Proof.
  intros Hn. rewrite atoi_decimal; rewrite decimal_fmt_d; unfold INT_MAX in *; lia.
Qed.

Lemma fmt_d_head n :
  1 ≤ n → isdigit (char_at (fmt_d n) 0) = true.
Proof.
  destruct n as [|p|p]; try lia. intros _. rewrite fmt_d_pos.
  destruct (uint_string_head (Pos.to_uint p)) as (c & rest & -> & Hc & _);
    [apply DecimalPos.Unsigned.to_uint_nonnil | exact Hc].
Qed.

Lemma digit_not_percent c : isdigit c = true → Ascii.eqb c "%" = false.
Proof.
  intros Hc. destruct (Ascii.eqb_spec c "%") as [->|]; [| done].
  discriminate Hc.
Qed.

(** ** [bg] on a stopped job *)

Lemma lookup_by_pid w cmd0 tok i :
  Ascii.eqb (char_at tok 0) "%" = false → atoi tok ≠ 0 →
  getjobpid (jobs w) (atoi tok) = Some i →
  do_bgfg_lookup [cmd0; tok] w = Ret (Some i) w.
Proof.
  intros Hpct Hnz Hfind. unfold do_bgfg_lookup. simpl. unfold_m.
  rewrite Hpct. destruct (Z.eqb_spec (atoi tok) 0); [done |]. simpl.
  by rewrite Hfind.
Qed.

Lemma lookup_by_jid w cmd0 tok i :
  Ascii.eqb (char_at tok 0) "%" = true → isdigit (char_at tok 1) = true →
  getjobjid (jobs w) (atoi (from_1 tok)) = Some i →
  do_bgfg_lookup [cmd0; tok] w = Ret (Some i) w.
Proof.
  intros Hpct Hdig Hfind. unfold do_bgfg_lookup. simpl. unfold_m.
  rewrite Hpct, Hdig. simpl. by rewrite Hfind.
Qed.

Lemma pid2jid_set_state i s js p :
  pid2jid (set_state i s js) p = pid2jid js p.
Proof.
  unfold pid2jid, first_pid. destruct (p <? 1); [done |].
  revert i. induction js as [|K js IH]; intros i; [done |].
  destruct i as [|i]; simpl.
  - by destruct (decide (pid K = p)).
  - destruct (decide (pid K = p)); [done |].
    specialize (IH i).
    destruct (list_find _ (set_state i s js)) as [[? ?]|];
      destruct (list_find _ js) as [[? ?]|]; simpl in *; done.
Qed.

Lemma pid2jid_first js p i J :
  getjobpid js p = Some i → js !! i = Some J → pid2jid js p = jid J.
Proof.
  intros (Hp & K & Hfind)%getjobpid_Some Hi. unfold pid2jid.
  destruct (Z.ltb_spec p 1); [lia |]. rewrite Hfind.
  apply first_pid_Some in Hfind as [Hi' _]. congruence.
Qed.

(** The four moves of [bg tok] on the stopped job [J] of slot [i], once the
    token is known to lead [do_bgfg_lookup] to slot [i]. *)
Lemma bg_moves w i J tok bg cmd child :
  jobs w !! i = Some J → state J = ST →
  getjobpid (jobs w) (pid J) = Some i →
  do_bgfg_lookup ["bg"; tok] w = Ret (Some i) w →
  step (Prompt, w) (Line ["bg"; tok] bg cmd child)
    = Some (BgfgFound ["bg"; tok] i, w)
  ∧ step (BgfgFound ["bg"; tok] i, w) (Go None)
    = Some (BgfgStore ["bg"; tok] i, add_out (Kill (- pid J) SIGCONT) w)
  ∧ step (BgfgStore ["bg"; tok] i, add_out (Kill (- pid J) SIGCONT) w) (Go None)
    = Some (BgfgStored ["bg"; tok] i,
            set_jobs (set_state i BG (jobs w)) (add_out (Kill (- pid J) SIGCONT) w))
  ∧ step (BgfgStored ["bg"; tok] i,
          set_jobs (set_state i BG (jobs w)) (add_out (Kill (- pid J) SIGCONT) w))
         (Go None)
    = Some (Prompt, resumed_in_bg w i J).
Proof.
  intros Hi HJ Hpid Hlook. split_and!.
  - unfold step. simpl. unfold do_bgfg, mbind, M_bind. by rewrite Hlook.
  - unfold step. simpl. unfold do_bgfg_cont, deref. unfold_m.
    rewrite Hi. simpl. rewrite HJ. done.
  - unfold step. simpl. unfold do_bgfg_store. simpl. by unfold_m.
  - unfold step. simpl. unfold deref. unfold_m.
    unfold set_state at 1. rewrite list_lookup_alter_eq, Hi. simpl.
    unfold resumed_in_bg, add_out, ack, ack_line. simpl.
    rewrite pid2jid_set_state, (pid2jid_first _ _ i J) by done.
    by rewrite <- app_assoc.
Qed.




(** ** The error messages of [bg] and [fg] *)

Lemma argv0_is a argv : a ≠ EmptyString → argv0 argv = a → ∃ rest, argv = a :: rest.
Proof.
  unfold argv0. destruct argv as [|a0 rest]; simpl; [congruence |].
  intros _ ->. eauto.
Qed.

Lemma percent_head tok :
  Ascii.eqb (char_at tok 0) "%" = true → ∃ rest, tok = String "%" rest.
Proof.
  destruct tok as [|c rest]; [done |]. unfold char_at. simpl.
  intros H. apply Ascii.eqb_eq in H. subst c. eauto.
Qed.

Lemma bgfg_failure_step w argv bg cmd child k :
  argv0 argv = "bg" ∨ argv0 argv = "fg" →
  bgfg_failure_of (jobs w) argv = Some k →
  step (Prompt, w) (Line argv bg cmd child)
    = Some (Prompt, add_out (Printf (failure_message k argv)) w).
Proof.
  intros Hcmd Hfail.
  assert (∃ rest, argv = "bg" :: rest ∨ argv = "fg" :: rest) as [rest Hargv].
  { destruct Hcmd as [[rest ->]%argv0_is|[rest ->]%argv0_is]; eauto. }
  assert (step (Prompt, w) (Line argv bg cmd child)
          = Some (settle (do_bgfg argv w))) as ->
    by (by destruct Hargv as [-> | ->]).
  f_equal. unfold do_bgfg. unfold bgfg_failure_of, failure_message in *.
  unfold do_bgfg_lookup, malformed, target in *. unfold_m.
  destruct (argv !! 1%nat) as [tok|]; simpl in *.
  - destruct (Ascii.eqb (char_at tok 0) "%").
    + destruct (isdigit (char_at tok 1)); simpl in *; [| by injection Hfail as <-].
      destruct (getjobjid (jobs w) (atoi (from_1 tok))); [done |].
      by injection Hfail as <-.
    + destruct (atoi tok =? 0); simpl in *; [by injection Hfail as <- |].
      destruct (getjobpid (jobs w) (atoi tok)); [done |].
      by injection Hfail as <-.
  - by injection Hfail as <-.
Qed.

Lemma failure_messages_differ argv argv' k k' :
  argv0 argv = "bg" ∨ argv0 argv = "fg" →
  argv0 argv' = "bg" ∨ argv0 argv' = "fg" →
  k ≠ k' → failure_message k argv ≠ failure_message k' argv'.
Proof.
  intros Hcmd Hcmd' Hne.
  assert (∀ tok, (if Ascii.eqb (char_at tok 0) "%" then msg_nojob tok
                  else msg_noproc tok)
                 = String "%" (from_1 (msg_nojob tok))
                 ∨ (if Ascii.eqb (char_at tok 0) "%" then msg_nojob tok
                    else msg_noproc tok)
                   = String "(" (tok +:+ "): No such process" +:+ nl)) as Hhead.
  { intros tok. destruct (Ascii.eqb (char_at tok 0) "%") eqn:Hpct; [| by right].
    apply percent_head in Hpct as [rest ->]. by left. }
  destruct k, k'; try done; unfold failure_message;
    try destruct (Hhead (default EmptyString (argv !! 1%nat))) as [-> | ->];
    try destruct (Hhead (default EmptyString (argv' !! 1%nat))) as [-> | ->];
    destruct Hcmd as [Hc | Hc], Hcmd' as [Hc' | Hc']; rewrite ?Hc, ?Hc';
    discriminate.
Qed.



(** ** Children killed by a signal *)

Lemma land_127 status : Z.land status 127 = status mod 128.
Proof. apply (Z.land_ones status 7). lia. Qed.

Lemma land_255 status : Z.land status 255 = status mod 256.
Proof. apply (Z.land_ones status 8). lia. Qed.

(** A status reports one kind of event at a time. *)
Lemma WIFSIGNALED_exclusive status :
  WIFSIGNALED status = true →
  WIFEXITED status = false ∧ WIFSTOPPED status = false.
Proof.
  unfold WIFSIGNALED, WIFEXITED, WIFSTOPPED, WTERMSIG.
  rewrite land_127, land_255.
  pose proof (Z.mod_pos_bound status 128 ltac:(lia)) as Hlow.
  assert (status mod 128 = (status mod 256) mod 128) as Hmod.
  { symmetry. apply Z.mod_mod_divide. by exists 2. }
  intros Hsig. split.
  - destruct (Z.eqb_spec (status mod 128) 0) as [E|]; [| done].
    rewrite E in Hsig. discriminate Hsig.
  - destruct (Z.eqb_spec (status mod 256) 127) as [E|]; [| done].
    rewrite E in Hmod. change (127 mod 128) with 127 in Hmod.
    rewrite Hmod in Hsig. discriminate Hsig.
Qed.

(** For a tracked child killed by any signal, the handler writes the job
    id, the pid and the fixed text "terminated by signal SIGINT" through
    the [sio_] routines, and then clears the slot. *)
Lemma sigchld_signaled w p i J status :
  first_pid (jobs w) p = Some (i, J) → 1 ≤ p →
  WIFSIGNALED status = true →
  sigchld_handler [(p, status)] w =
    Ret tt (World (<[i := clearjob J]> (jobs w))
                  (maxjid (<[i := clearjob J]> (jobs w)) + 1)
                  (verbose w)
                  (out w ++ [ Write "Job ["; Write (sio_ltoa (jid J) 10);
                              Write "] ("; Write (sio_ltoa p 10);
                              Write ") terminated by signal SIGINT";
                              Write nl ])).
Proof.
  intros Hfound Hp Hsig.
  destruct (WIFSIGNALED_exclusive _ Hsig) as [Hexit Hstop].
  assert (pid2jid (jobs w) p = jid J) as Hjid.
  { unfold pid2jid. destruct (Z.ltb_spec p 1); [lia |]. by rewrite Hfound. }
  cbn [sigchld_handler]. destruct (Z.gtb_spec p 0); [| lia].
  unfold sigchld_round. rewrite Hexit, Hsig, Hstop.
  unfold sio_putl, sio_puts. unfold_m.
  rewrite Hjid.
  match goal with
  | |- context [deletejob p ?w1] =>
      rewrite (deletejob_clears p w1 i J) by done
  end.
  simpl. by rewrite <- !app_assoc.
Qed.

(** C3 at a child killed by SIGKILL: the tracked foreground job with pid
    300 and job id 1 is reported as "terminated by signal SIGINT" although
    the status names signal 9, whose entry in [signame] is "KILL"; the job
    is then removed. *)
Lemma C3_killed_child_reported_as_SIGINT :
  getjobpid (jobs fg_config.2) 300 = Some 0%nat
  ∧ WIFSIGNALED 9 = true ∧ WTERMSIG 9 = 9 ∧ signame !! 9%nat = Some "KILL"%string
  ∧ sigchld_handler [(300, 9)] fg_config.2
    = Ret tt (after (sigchld_handler [(300, 9)] fg_config.2))
  ∧ out (after (sigchld_handler [(300, 9)] fg_config.2))
    = [ Write "Job ["; Write "1"; Write "] ("; Write "300";
        Write ") terminated by signal SIGINT"; Write nl ]
  ∧ getjobpid (jobs (after (sigchld_handler [(300, 9)] fg_config.2))) 300 = None.
Proof. split_and!; vm_compute; reflexivity. Qed.

(** ** [sio_ltoa] has fuel to spare *)

Lemma sio_ltoa_loop_fuel fuel v b :
  2 ≤ b → 0 ≤ v → (Z.to_nat v ≤ fuel)%nat →
  sio_ltoa_loop fuel v b = sio_ltoa_loop (Z.to_nat v) v b.
Proof.
  intros Hb. revert v.
  assert (∀ f1 f2 v, 0 ≤ v → (Z.to_nat v ≤ f1)%nat → (Z.to_nat v ≤ f2)%nat →
            sio_ltoa_loop f1 v b = sio_ltoa_loop f2 v b) as Hany.
  { induction f1 as [|f1 IH]; intros f2 v Hv H1 H2.
    - assert (v = 0) as -> by lia.
      by destruct f2.
    - destruct f2 as [|f2].
      + by assert (v = 0) as -> by lia.
      + simpl. destruct (Z.gtb_spec (v ÷ b) 0) as [Hq|Hq]; [| done].
        f_equal.
        assert (0 < v) as Hpos by (destruct (Z.eq_dec v 0) as [->|]; [done | lia]).
        pose proof (Z.quot_lt v b Hpos ltac:(lia)).
        apply IH; lia. }
  intros v Hv Hfuel. by apply Hany.
Qed.

(** ** The pids in the table

    [addjob] refuses a pid below 1, so no slot ever holds a negative pid,
    and the target [-pid] of the terminal signals is a process group. *)

#[global] Instance keeps_pids_ok_rel : StepRel keeps_pids_ok.
Proof. split; unfold keeps_pids_ok; auto. Qed.

Lemma pids_ok_update f :
  (∀ js, pids_ok js → pids_ok (f js)) → preserves keeps_pids_ok (update_jobs f).
Proof. intros Hf w Hok. by apply Hf. Qed.

Lemma pids_ok_set_nextjid n : preserves keeps_pids_ok (modify (set_nextjid n)).
Proof. intros w Hok. exact Hok. Qed.

Lemma pids_ok_set_state i s js : pids_ok js → pids_ok (set_state i s js).
Proof. intros Hok. apply Forall_alter; [done |]. by intros J _. Qed.

Ltac pids_ok_tac :=
  preserves_tac;
  try solve [ apply pids_ok_set_nextjid
            | apply pids_ok_update; intros;
              first [ apply pids_ok_set_state; assumption
                    | apply Forall_insert; [assumption | simpl; lia] ] ].

Lemma pids_ok_addjob p st cmd : preserves keeps_pids_ok (addjob p st cmd).
Proof. unfold addjob. destruct (Z.ltb_spec p 1); pids_ok_tac. Qed.

Lemma pids_ok_deletejob p : preserves keeps_pids_ok (deletejob p).
Proof. unfold deletejob. destruct (p <? 1); pids_ok_tac. Qed.

Lemma pids_ok_sigchld_handler reaped :
  preserves keeps_pids_ok (sigchld_handler reaped).
Proof.
  induction reaped as [|[p status] reaped IH]; simpl; [pids_ok_tac |].
  destruct (p >? 0); [| pids_ok_tac].
  unfold sigchld_round. pids_ok_tac; try apply pids_ok_deletejob.
  intros _. apply IH.
Qed.

Lemma pids_ok_transition c l m :
  transition c l = Some m → preserves keeps_pids_ok m.
Proof.
  destruct l as [argv bg cmd child| |kill_err|reaped| | |]; simpl.
  - destruct c; try done. destruct argv as [|a0 argv]; simpl.
    { intros [= <-]. pids_ok_tac. }
    unfold builtin_cmd, do_bgfg.
    repeat (destruct (String.eqb _ _); simpl;
            [intros [= <-]; pids_ok_tac;
             first [apply preserves_listjobs | apply preserves_do_bgfg_lookup];
             exact _ |]).
    destruct (child =? 0); [done |].
    destruct bg; simpl; intros [= <-]; pids_ok_tac; apply pids_ok_addjob.
  - destruct c; try done. intros [= <-]. pids_ok_tac.
  - destruct c as [|argv i|argv i|argv i|p cmd|p| |]; simpl; try done.
    + intros [= <-]. pids_ok_tac. apply preserves_do_bgfg_cont. exact _.
    + intros [= <-]. unfold do_bgfg_store.
      repeat (destruct (String.eqb _ _)); pids_ok_tac.
    + repeat (destruct (String.eqb _ _)); intros [= <-]; pids_ok_tac;
        apply preserves_deref; exact _.
    + intros [= <-]. pids_ok_tac.
    + intros [= <-]. unfold waitfg. pids_ok_tac.
  - destruct (running c); [| done]. intros [= <-]. pids_ok_tac.
    apply pids_ok_sigchld_handler.
  - destruct (running c); [| done]. intros [= <-]. pids_ok_tac.
    apply preserves_sigint_handler. exact _.
  - destruct (running c); [| done]. intros [= <-]. pids_ok_tac.
    apply preserves_sigtstp_handler. exact _.
  - destruct (running c); [| done]. intros [= <-]. pids_ok_tac.
    apply preserves_sigquit_handler. exact _.
Qed.

Lemma run_pids_ok v ls cf : run (boot v) ls = Some cf → pids_ok (jobs cf.2).
Proof.
  assert (∀ cf0, pids_ok (jobs cf0.2) → run cf0 ls = Some cf → pids_ok (jobs cf.2))
    as Hrun.
  { induction ls as [|l ls IH]; intros cf0 Hok; simpl.
    - by intros [= <-].
    - destruct (step cf0 l) as [cf1|] eqn:Hstep; simpl; [| done].
      apply IH. unfold step in Hstep.
      destruct (transition cf0.1 l) as [m|] eqn:Hm; [| done].
      simpl in Hstep. injection Hstep as <-. rewrite settle_after.
      by apply (pids_ok_transition _ _ _ Hm). }
  apply Hrun. rewrite boot_jobs. by apply Forall_replicate.
Qed.

(** In every state the shell reaches: when a live slot is in state [FG],
    the terminal signals are forwarded to that job's process group and
    nothing else happens; when none is, nothing happens at all. *)
Lemma run_terminal_signals v ls cf :
  run (boot v) ls = Some cf →
  (∀ i J, jobs cf.2 !! i = Some J → state J = FG → live J →
     sigint_handler cf.2 = Ret tt (add_out (Kill (- pid J) SIGINT) cf.2)
     ∧ sigtstp_handler cf.2 = Ret tt (add_out (Kill (- pid J) SIGTSTP) cf.2)
     ∧ - pid J < 0)
  ∧ ((∀ i J, jobs cf.2 !! i = Some J → state J = FG → ¬ live J) →
     sigint_handler cf.2 = Ret tt cf.2 ∧ sigtstp_handler cf.2 = Ret tt cf.2).
Proof.
  intros Hrun.
  pose proof (run_pids_ok _ _ _ Hrun) as Hpids.
  pose proof (run_inv _ _ _ (boot_inv v) Hrun) as Hone%ctl_inv_one_fg.
  rewrite !sigint_handler_eq, !sigtstp_handler_eq. split.
  - intros i J Hi HJ Hlive.
    rewrite (fgpid_the_fg_job _ _ _ Hi HJ Hone).
    pose proof (Forall_lookup_1 _ _ _ _ Hpids Hi) as Hpid. simpl in Hpid.
    unfold live in Hlive.
    destruct (Z.eqb_spec (pid J) 0); [done |]. split_and!; [done | done | lia].
  - intros Hnone. rewrite fgpid_no_live_fg; [done |].
    intros i J Hi HJ. destruct (Z.eq_dec (pid J) 0) as [|Hne]; [done |].
    by destruct (Hnone i J Hi HJ).
Qed.

(** * Further properties of the job list helper routines *)

(** ** [maxjid] *)

Lemma maxjid_loop_attained m js :
  maxjid_loop m js = m ∨ ∃ i J, js !! i = Some J ∧ jid J = maxjid_loop m js.
Proof.
  revert m. induction js as [|K js IH]; intros m; simpl; [by left |].
  destruct (IH (if jid K >? m then jid K else m)) as [E|(i & J & Hi & HJ)].
  - rewrite E. destruct (Z.gtb_spec (jid K) m); [| by left].
    right. by exists 0%nat, K.
  - right. by exists (S i), J.
Qed.

(** [maxjid] returns an upper bound of the job ids of all slots that is
    never negative, and that is 0 or the job id of some slot. *)
Theorem maxjid_is_maximum (js : list Job) :
  0 ≤ maxjid js
  ∧ (∀ i J, js !! i = Some J → jid J ≤ maxjid js)
  ∧ (maxjid js = 0 ∨ ∃ i J, js !! i = Some J ∧ jid J = maxjid js).
Proof.
  split_and!.
  - apply maxjid_nonneg.
  - apply maxjid_upper.
  - apply maxjid_loop_attained.
Qed.

(** ** [addjob]: capacity *)

Lemma free_slot_iff js :
  is_Some (first_pid js 0) ↔ (live_count js < length js)%nat.
Proof.
  unfold first_pid, live_count.
  induction js as [|J js IH]; simpl.
  - split; [by intros [? ?] | lia].
  - rewrite filter_cons. pose proof (length_filter live js) as Hle.
    destruct (decide (pid J = 0)) as [E|E];
      destruct (decide (live J)) as [Hl|Hl]; unfold live in Hl; try lia; simpl.
    + split; [lia | eauto].
    + rewrite fmap_is_Some, IH. lia.
Qed.

Lemma live_count_fill js i J K :
  js !! i = Some J → ¬ live J → live K →
  live_count (<[i := K]> js) = S (live_count js).
Proof.
  unfold live_count. revert i.
  induction js as [|J0 js IH]; intros i Hi HJ HK; [done |].
  destruct i as [|i]; simpl in *.
  - injection Hi as ->. rewrite !filter_cons.
    destruct (decide (live K)); [| done]. by destruct (decide (live J)).
  - rewrite !filter_cons. destruct (decide (live J0)); simpl; by rewrite (IH i).
Qed.

(** [addjob] returns true exactly when the pid is at least 1 and fewer slots
    are live than the table has; it then makes one more slot live.  When
    it returns false the table and [nextjid] are as they were.  Either way it
    returns to its caller and the table keeps its size. *)
Theorem addjob_succeeds_iff (w : world) (p : Z) (st : jstate) (cmd : string) :
  ∃ b w', addjob p st cmd w = Ret b w'
    ∧ (b = true ↔ 1 ≤ p ∧ (live_count (jobs w) < length (jobs w))%nat)
    ∧ (b = true → live_count (jobs w') = S (live_count (jobs w)))
    ∧ (b = false → same_table w w')
    ∧ length (jobs w') = length (jobs w).
Proof.
  destruct (Z.lt_ge_cases p 1) as [Hp|Hp].
  - exists false, w. rewrite addjob_rejects by done.
    split_and!; try done. split; [done | lia].
  - destruct (first_pid (jobs w) 0) as [[i J]|] eqn:Hfree.
    + eexists true, _. rewrite (addjob_fills _ _ _ _ i J) by done.
      pose proof Hfree as (Hi & HJ & _)%list_find_Some.
      split_and!; try done; simpl.
      * split; [intros _ | done]. split; [lia |].
        apply free_slot_iff. by rewrite Hfree.
      * intros _. apply (live_count_fill _ _ J); [done | |];
          unfold live; simpl; lia.
      * apply length_insert.
    + eexists false, _. rewrite addjob_full by done.
      split_and!; try done.
      split; [done |]. intros [_ Hlt%free_slot_iff].
      rewrite Hfree in Hlt. by destruct Hlt.
Qed.

(** ** [addjob], [deletejob] and the look-ups *)

Lemma list_find_insert_other {A} (P : A → Prop) `{!∀ x, Decision (P x)}
    (l : list A) i x y :
  l !! i = Some x → ¬ P x → ¬ P y → list_find P (<[i := y]> l) = list_find P l.
Proof.
  revert i. induction l as [|a l IH]; intros i Hi Hx Hy; [done |].
  destruct i as [|i]; simpl in *.
  - injection Hi as ->. by rewrite !decide_False.
  - destruct (decide (P a)); [done |]. by rewrite (IH i).
Qed.

Lemma getjobpid_None js p :
  getjobpid js p = None ↔ p < 1 ∨ first_pid js p = None.
Proof.
  unfold getjobpid. destruct (Z.ltb_spec p 1).
  - split; [by left | done].
  - rewrite fmap_None. split; [by right | by intros [?|?]; [lia |]].
Qed.

Lemma first_pid_fill js i J p nj st cmd :
  js !! i = Some J → first_pid js p = None →
  first_pid (<[i := mkJob p nj st cmd]> js) p = Some (i, mkJob p nj st cmd).
Proof.
  intros Hi Hfresh. apply list_find_None in Hfresh.
  apply list_find_Some. split_and!.
  - apply list_lookup_insert_eq. by eapply lookup_lt_Some.
  - done.
  - intros k K Hk Hlt. rewrite list_lookup_insert_ne in Hk by lia.
    by eapply Forall_lookup_1 in Hfresh.
Qed.

Lemma first_pid_other js i J K q :
  js !! i = Some J → pid J ≠ q → pid K ≠ q →
  first_pid (<[i := K]> js) q = first_pid js q.
Proof. intros. by eapply list_find_insert_other. Qed.

(** A job registered by a successful [addjob] under a pid that was not in
    the table is the one [getjobpid] then finds, with the job id that
    [nextjid] held; the look-ups of every other pid answer as before. *)
Theorem addjob_then_lookup
    (w w' : world) (p : Z) (st : jstate) (cmd : string) :
  getjobpid (jobs w) p = None →
  addjob p st cmd w = Ret true w' →
  (∃ i, getjobpid (jobs w') p = Some i
        ∧ jobs w' !! i = Some (mkJob p (nextjid w) st cmd))
  ∧ pid2jid (jobs w') p = nextjid w
  ∧ (∀ q, q ≠ p → getjobpid (jobs w') q = getjobpid (jobs w) q
                  ∧ pid2jid (jobs w') q = pid2jid (jobs w) q).
Proof.
  intros Hfresh Hadd.
  destruct (Z.lt_ge_cases p 1) as [Hp|Hp];
    [by rewrite addjob_rejects in Hadd |].
  destruct (first_pid (jobs w) 0) as [[i J]|] eqn:Hfree;
    [| by rewrite addjob_full in Hadd].
  rewrite (addjob_fills _ _ _ _ i J) in Hadd by done. injection Hadd as <-.
  apply first_pid_Some in Hfree as [Hi HJ].
  apply getjobpid_None in Hfresh as [?|Hfresh]; [lia |].
  pose proof (first_pid_fill _ _ _ _ (nextjid w) st cmd Hi Hfresh) as Hnew.
  simpl. split_and!.
  - exists i. split.
    + apply getjobpid_Some. eauto.
    + apply list_lookup_insert_eq. by eapply lookup_lt_Some.
  - unfold pid2jid. destruct (Z.ltb_spec p 1); [lia |]. by rewrite Hnew.
  - intros q Hq. unfold getjobpid, pid2jid.
    destruct (q <? 1) eqn:Hq1; [done |].
    assert (q ≠ 0) as Hq0 by (intros ->; done).
    rewrite (first_pid_other _ _ J) by (simpl; congruence). done.
Qed.

(** On a table whose empty slots are cleared, registering a job under a
    pid that was not in the table and deleting it again gives the table
    back; [nextjid] is then one above the largest job id. *)
Theorem addjob_then_deletejob
    (w w' : world) (p : Z) (st : jstate) (cmd : string) :
  table_ok (jobs w) → getjobpid (jobs w) p = None →
  addjob p st cmd w = Ret true w' →
  ∃ w'', deletejob p w' = Ret true w''
         ∧ jobs w'' = jobs w ∧ nextjid w'' = maxjid (jobs w) + 1.
Proof.
  intros Hok Hfresh Hadd.
  destruct (Z.lt_ge_cases p 1) as [Hp|Hp];
    [by rewrite addjob_rejects in Hadd |].
  destruct (first_pid (jobs w) 0) as [[i J]|] eqn:Hfree;
    [| by rewrite addjob_full in Hadd].
  rewrite (addjob_fills _ _ _ _ i J) in Hadd by done. injection Hadd as <-.
  apply first_pid_Some in Hfree as [Hi HJ].
  apply getjobpid_None in Hfresh as [?|Hfresh]; [lia |].
  pose proof (first_pid_fill _ _ _ _ (nextjid w) st cmd Hi Hfresh) as Hnew.
  assert (J = clearjob (mkJob p (nextjid w) st cmd)) as HJclear.
  { pose proof (Forall_lookup_1 _ _ _ _ Hok Hi HJ) as (Hjid & Hst & Hcmd).
    destruct J; simpl in *. by subst. }
  eexists. rewrite (deletejob_clears _ _ i (mkJob p (nextjid w) st cmd)) by done.
  simpl. rewrite list_insert_insert_eq, <- HJclear, list_insert_id by done.
  done.
Qed.

(** After [deletejob(pid)] no job is found under [pid], on a table whose live
    pids are distinct.  It returns true exactly when [getjobpid] found one:
    then that slot is cleared, every other slot is as it was and [nextjid] is
    one above the largest job id left; otherwise nothing at all changes. *)
Theorem deletejob_then_lookup (w : world) (p : Z) :
  pids_unique (jobs w) →
  ∃ b w', deletejob p w = Ret b w'
    ∧ getjobpid (jobs w') p = None ∧ pid2jid (jobs w') p = 0
    ∧ match getjobpid (jobs w) p with
      | Some i =>
          b = true
          ∧ jobs w' !! i = Some (mkJob 0 0 UNDEF "")
          ∧ (∀ k, k ≠ i → jobs w' !! k = jobs w !! k)
          ∧ nextjid w' = maxjid (jobs w') + 1 ∧ out w' = out w
      | None => b = false ∧ w' = w
      end.
Proof.
  intros Huniq.
  assert (∀ js, first_pid js p = None → getjobpid js p = None ∧ pid2jid js p = 0)
    as Hgone.
  { intros js Hnone. unfold getjobpid, pid2jid.
    destruct (p <? 1); by rewrite ?Hnone. }
  destruct (Z.lt_ge_cases p 1) as [Hp|Hp].
  - exists false, w. rewrite deletejob_rejects by done.
    unfold getjobpid, pid2jid. destruct (Z.ltb_spec p 1); [done | lia].
  - destruct (first_pid (jobs w) p) as [[i J]|] eqn:Hfound.
    + eexists true, _. rewrite (deletejob_clears _ _ i J) by done.
      split; [reflexivity |]. cbn [jobs nextjid out].
      pose proof (first_pid_Some _ _ _ _ Hfound) as [Hi HJ].
      assert (first_pid (<[i:=clearjob J]> (jobs w)) p = None) as Hnone.
      { apply list_find_None, Forall_lookup_2.
        intros k K [(-> & <- & _)|(Hne & Hk)]%list_lookup_insert_Some; simpl.
        - lia.
        - intros HK. apply Hne.
          apply (Huniq i k J K Hi Hk); [unfold live; lia | congruence]. }
      destruct (Hgone _ Hnone) as [-> ->]. split_and!; try done.
      assert (getjobpid (jobs w) p = Some i) as ->
        by (apply getjobpid_Some; eauto).
      split_and!; try done.
      * apply list_lookup_insert_eq. by eapply lookup_lt_Some.
      * intros k Hk. by rewrite list_lookup_insert_ne.
    + exists false, w. rewrite deletejob_missing by done.
      destruct (Hgone _ Hfound) as [-> ->]. done.
Qed.

Lemma addjob_then_lookup_witness :
  (∃ i, getjobpid (jobs (after (addjob 12 BG "d &" gap_world))) 12 = Some i
        ∧ jobs (after (addjob 12 BG "d &" gap_world)) !! i
          = Some (mkJob 12 (nextjid gap_world) BG "d &"))
  ∧ pid2jid (jobs (after (addjob 12 BG "d &" gap_world))) 12 = nextjid gap_world.
Proof.
  assert (getjobpid (jobs gap_world) 12 = None) as Hfresh
    by (vm_compute; reflexivity).
  assert (addjob 12 BG "d &" gap_world
          = Ret true (after (addjob 12 BG "d &" gap_world))) as Hadd
    by (vm_compute; reflexivity).
  destruct (addjob_then_lookup _ _ _ _ _ Hfresh Hadd) as (Hfind & Hjid & _).
  by split.
Defined.

Lemma addjob_then_deletejob_witness :
  ∃ w'', deletejob 12 (after (addjob 12 BG "d &" gap_world)) = Ret true w''
         ∧ jobs w'' = jobs gap_world
         ∧ nextjid w'' = maxjid (jobs gap_world) + 1.
Proof.
  assert (table_ok (jobs gap_world)) as Hok
    by (apply (bool_decide_unpack _); vm_compute; exact I).
  assert (getjobpid (jobs gap_world) 12 = None) as Hfresh
    by (vm_compute; reflexivity).
  assert (addjob 12 BG "d &" gap_world
          = Ret true (after (addjob 12 BG "d &" gap_world))) as Hadd
    by (vm_compute; reflexivity).
  exact (addjob_then_deletejob _ _ _ _ _ Hok Hfresh Hadd).
Defined.

Lemma deletejob_then_lookup_witness :
  pids_unique (jobs gap_world)
  ∧ ∃ w', deletejob 11 gap_world = Ret true w'
      ∧ getjobpid (jobs w') 11 = None ∧ pid2jid (jobs w') 11 = 0
      ∧ nextjid w' = maxjid (jobs w') + 1.
Proof.
  assert (admissible [Add 10 BG "a &"; Add 20 BG "b &"; Add 11 BG "c &"; Del 20]
            w0) as Hadm by (vm_compute; repeat split; reflexivity).
  pose proof (proj1 (apply_ops_unique _ w0 (boot_unique false) Hadm)) as Huniq.
  split; [exact Huniq |].
  destruct (deletejob_then_lookup gap_world 11 Huniq)
    as (b & w' & Hdel & Hnone & Hjid & Hcase).
  assert (getjobpid (jobs gap_world) 11 = Some 2%nat) as Hfound
    by (vm_compute; reflexivity).
  rewrite Hfound in Hcase. destruct Hcase as (-> & _ & _ & Hnext & _).
  eauto.
Defined.

(** * Further properties of the running shell *)

(** ** Live slots are well formed *)

#[global] Instance keeps_world_ok_rel : StepRel keeps_world_ok.
Proof. split; unfold keeps_world_ok; auto. Qed.

Lemma world_ok_addjob p st cmd :
  st ≠ UNDEF → preserves keeps_world_ok (addjob p st cmd).
Proof.
  intros Hst w [Hslots Hnext]. destruct (Z.lt_ge_cases p 1) as [Hp|Hp].
  - by rewrite addjob_rejects.
  - destruct (first_pid (jobs w) 0) as [[i J]|] eqn:Hfree.
    + rewrite (addjob_fills _ _ _ _ i J) by done. split; simpl.
      * apply Forall_insert; [done |]. by intros _.
      * unfold bump. destruct (_ >? _); lia.
    + by rewrite addjob_full.
Qed.

Lemma world_ok_deletejob p : preserves keeps_world_ok (deletejob p).
Proof.
  intros w [Hslots Hnext]. destruct (Z.lt_ge_cases p 1) as [Hp|Hp].
  - by rewrite deletejob_rejects.
  - destruct (first_pid (jobs w) p) as [[i J]|] eqn:Hfound.
    + rewrite (deletejob_clears _ _ i J) by done. split; simpl.
      * apply Forall_insert; [done |]. by intros [].
      * pose proof (maxjid_nonneg (<[i:=clearjob J]> (jobs w))). lia.
    + by rewrite deletejob_missing.
Qed.

Lemma world_ok_set_state i s :
  s ≠ UNDEF → preserves keeps_world_ok (update_jobs (set_state i s)).
Proof.
  intros Hs w [Hslots Hnext]. split; [| done]. simpl.
  apply Forall_alter; [done |]. intros J _ HJ Hlive.
  destruct (HJ Hlive) as (? & ? & _). done.
Qed.

Ltac world_ok_tac :=
  preserves_tac;
  try solve [ apply world_ok_deletejob
            | apply world_ok_addjob; done
            | apply world_ok_set_state; done ].

Lemma world_ok_sigchld_handler reaped :
  preserves keeps_world_ok (sigchld_handler reaped).
Proof.
  induction reaped as [|[p status] reaped IH]; simpl; [world_ok_tac |].
  destruct (p >? 0); [| world_ok_tac].
  unfold sigchld_round. world_ok_tac. intros _. apply IH.
Qed.

Lemma world_ok_transition c l m :
  transition c l = Some m → preserves keeps_world_ok m.
Proof.
  destruct l as [argv bg cmd child| |kill_err|reaped| | |]; simpl.
  - destruct c; try done. destruct argv as [|a0 argv]; simpl.
    { intros [= <-]. world_ok_tac. }
    unfold builtin_cmd, do_bgfg.
    repeat (destruct (String.eqb _ _); simpl;
            [intros [= <-]; world_ok_tac;
             first [apply preserves_listjobs | apply preserves_do_bgfg_lookup];
             exact _ |]).
    destruct (child =? 0); [done |].
    destruct bg; simpl; intros [= <-]; world_ok_tac.
  - destruct c; try done. intros [= <-]. world_ok_tac.
  - destruct c as [|argv i|argv i|argv i|p cmd|p| |]; simpl; try done.
    + intros [= <-]. world_ok_tac. apply preserves_do_bgfg_cont. exact _.
    + intros [= <-]. unfold do_bgfg_store.
      repeat (destruct (String.eqb _ _)); world_ok_tac.
    + repeat (destruct (String.eqb _ _)); intros [= <-]; world_ok_tac;
        apply preserves_deref; exact _.
    + intros [= <-]. world_ok_tac.
    + intros [= <-]. unfold waitfg. world_ok_tac.
  - destruct (running c); [| done]. intros [= <-]. world_ok_tac.
    apply world_ok_sigchld_handler.
  - destruct (running c); [| done]. intros [= <-]. world_ok_tac.
    apply preserves_sigint_handler. exact _.
  - destruct (running c); [| done]. intros [= <-]. world_ok_tac.
    apply preserves_sigtstp_handler. exact _.
  - destruct (running c); [| done]. intros [= <-]. world_ok_tac.
    apply preserves_sigquit_handler. exact _.
Qed.

Lemma run_world_ok v ls cf : run (boot v) ls = Some cf → world_ok cf.2.
Proof.
  assert (∀ cf0, world_ok cf0.2 → run cf0 ls = Some cf → world_ok cf.2) as Hrun.
  { induction ls as [|l ls IH]; intros cf0 Hok; simpl.
    - by intros [= <-].
    - destruct (step cf0 l) as [cf1|] eqn:Hstep; simpl; [| done].
      apply IH. unfold step in Hstep.
      destruct (transition cf0.1 l) as [m|] eqn:Hm; [| done].
      simpl in Hstep. injection Hstep as <-. rewrite settle_after.
      by apply (world_ok_transition _ _ _ Hm). }
  apply Hrun. split; [| simpl; lia].
  rewrite boot_jobs. apply Forall_replicate. by intros [].
Qed.

(** In every state the shell reaches, every live slot holds a pid and a job
    id of at least 1 and a state other than [UNDEF], and [nextjid] is at
    least 1; so [pid2jid] answers 0 exactly for the pids under which
    [getjobpid] finds no job. *)
Theorem run_live_slots_well_formed
    (v : bool) (ls : list label) (cf : config) :
  run (boot v) ls = Some cf →
  world_ok cf.2
  ∧ (∀ p, pid2jid (jobs cf.2) p = 0 ↔ getjobpid (jobs cf.2) p = None).
Proof.
  intros Hrun. pose proof (run_world_ok _ _ _ Hrun) as Hok.
  split; [done |]. destruct Hok as [Hslots _].
  intros p. unfold pid2jid, getjobpid. destruct (Z.ltb_spec p 1); [done |].
  destruct (first_pid (jobs cf.2) p) as [[i J]|] eqn:Hfound; simpl; [| done].
  split; [| done]. intros Hjid.
  apply first_pid_Some in Hfound as [Hi HJ].
  pose proof (Forall_lookup_1 _ _ _ _ Hslots Hi) as Hslot.
  destruct Hslot as (_ & ? & _); [unfold live; lia | lia].
Qed.

Lemma run_live_slots_well_formed_witness :
  world_ok stopped_config.2
  ∧ (∀ p, pid2jid (jobs stopped_config.2) p = 0
          ↔ getjobpid (jobs stopped_config.2) p = None).
Proof.
  assert (run (boot false) [ Line ["/bin/cat"] false "/bin/cat" 300; Tstp;
                             Chld [(300, 5247)]; Go None ]
          = Some stopped_config) as Hrun by (vm_compute; reflexivity).
  exact (run_live_slots_well_formed false _ _ Hrun).
Defined.

(** ** [listjobs] *)

Lemma listjobs_loop_lines i js w :
  Forall slot_ok js →
  listjobs_loop i js w
  = Ret tt (World (jobs w) (nextjid w) (verbose w)
                  (out w ++ (filter live js ≫= job_lines))).
Proof.
  intros Hok. revert i w.
  induction Hok as [|J js HJ Hok IH]; intros i w.
  - simpl. destruct w. by rewrite app_nil_r.
  - cbn [listjobs_loop]. rewrite filter_cons.
    destruct (decide (live J)) as [Hlive|Hdead].
    + destruct (Z.eqb_spec (pid J) 0) as [E|_]; [by destruct Hlive |].
      destruct (HJ Hlive) as (_ & _ & Hst).
      unfold_m. rewrite IH. simpl. rewrite <- !app_assoc. simpl.
      by destruct (state J).
    + destruct (Z.eqb_spec (pid J) 0) as [_|E]; [| by destruct Hdead].
      unfold_m. by rewrite IH.
Qed.

(** On one snapshot of the table of a state the shell reaches, [listjobs]
    prints for each live slot, in slot order, its "[jid] (pid) ", then
    "Running ", "Foreground " or "Stopped " and then its command line. *)
Lemma run_listjobs_lines (v : bool) (ls : list label) (cf : config) :
  run (boot v) ls = Some cf →
  listjobs cf.2
  = Ret tt (World (jobs cf.2) (nextjid cf.2) (verbose cf.2)
                  (out cf.2 ++ (filter live (jobs cf.2) ≫= job_lines))).
Proof.
  intros [Hslots _]%run_world_ok. unfold listjobs. unfold_m.
  by apply listjobs_loop_lines.
Qed.

Lemma jobs_add_out e w : jobs (add_out e w) = jobs w.
Proof. reflexivity. Qed.

Lemma deref_lookup i w J : jobs w !! i = Some J → deref i w = Ret J w.
Proof. intros Hi. unfold deref. unfold_m. by rewrite Hi. Qed.

Lemma bind_Ret {A B} (m : M A) (f : A → M B) w a w' :
  m w = Ret a w' → (m ≫= f) w = f a w'.
Proof. intros Hm. unfold mbind, M_bind. by rewrite Hm. Qed.

Lemma bind_bind {A B C} (m : M A) (f : A → M B) (g : B → M C) w :
  ((m ≫= f) ≫= g) w = (m ≫= λ a, f a ≫= g) w.
Proof. unfold mbind, M_bind. by destruct (m w). Qed.

Ltac bind_step :=
  first
    [ rewrite bind_bind
    | rewrite (bind_Ret (sigchld_handler []) _ _ tt _ eq_refl)
    | erewrite (bind_Ret (deref _))
        by (apply deref_lookup; rewrite ?jobs_add_out; eassumption)
    | erewrite (bind_Ret (printf _)) by reflexivity ].

(** One round without a handler run reads the slot as one snapshot does. *)
Lemma listjobs_slot_quiet jid_first i w J :
  jobs w !! i = Some J →
  listjobs_slot jid_first quiet i w
  = when (negb (pid J =? 0))
      (printf ("[" +:+ fmt_d (jid J) +:+ "] (" +:+ fmt_d (pid J) +:+ ") ");;
       printf (state_label i (state J));;
       printf (cmdline J)) w.
Proof.
  intros Hi. unfold listjobs_slot.
  cbn [quiet at_test at_head in_head at_switch at_default at_cmdline].
  do 2 bind_step. destruct (pid J =? 0); [done |]. cbn [negb when].
  do 4 bind_step.
  replace (jid (if jid_first then J else J)) with (jid J) by (by destruct jid_first).
  replace (pid (if jid_first then J else J)) with (pid J) by (by destruct jid_first).
  do 3 bind_step.
  destruct (state J) eqn:HJ; cbn [state_label]; repeat bind_step; rewrite ?HJ;
    unfold printf, emit, modify; reflexivity.
Qed.

Lemma listjobs_racy_loop_quiet jid_first rest pre w :
  jobs w = pre ++ rest →
  listjobs_racy_loop jid_first (λ _, quiet) (length rest) (length pre) w
  = listjobs_loop (length pre) rest w.
Proof.
  revert pre w. induction rest as [|J rest IH]; intros pre w Hjs; [done |].
  cbn [length listjobs_racy_loop listjobs_loop]. unfold mbind, M_bind.
  rewrite (listjobs_slot_quiet _ _ _ J)
    by (rewrite Hjs; by apply list_lookup_middle).
  specialize (IH (pre ++ [J])). rewrite length_app, Nat.add_1_r in IH.
  destruct (pid J =? 0); unfold_m; apply IH; simpl;
    by rewrite Hjs, <- app_assoc.
Qed.

(** ** The terminal signals at the prompt *)

(** Whenever the shell is at its prompt no slot is in state [FG]: [fgpid]
    answers 0, and ctrl-c and ctrl-z are forwarded to nobody. *)
Theorem run_prompt_no_foreground (v : bool) (ls : list label) (w : world) :
  run (boot v) ls = Some (Prompt, w) →
  no_fg (jobs w) ∧ fgpid (jobs w) = 0
  ∧ sigint_handler w = Ret tt w ∧ sigtstp_handler w = Ret tt w.
Proof.
  intros Hrun. pose proof (run_inv _ _ _ (boot_inv v) Hrun) as Hno.
  simpl in Hno.
  assert (fgpid (jobs w) = 0) as Hfg
    by (apply fgpid_no_live_fg; intros i J Hi HJ; by destruct (Hno i J)).
  by rewrite sigint_handler_eq, sigtstp_handler_eq, Hfg.
Qed.

Lemma run_prompt_no_foreground_witness :
  no_fg (jobs stopped_config.2) ∧ fgpid (jobs stopped_config.2) = 0
  ∧ sigint_handler stopped_config.2 = Ret tt stopped_config.2
  ∧ sigtstp_handler stopped_config.2 = Ret tt stopped_config.2.
Proof.
  assert (run (boot false) [ Line ["/bin/cat"] false "/bin/cat" 300; Tstp;
                             Chld [(300, 5247)]; Go None ]
          = Some (Prompt, stopped_config.2)) as Hrun by (vm_compute; reflexivity).
  exact (run_prompt_no_foreground false _ _ Hrun).
Defined.

(** ** Launching, reaping and stopping a job *)

Lemma WIFEXITED_exclusive status :
  WIFEXITED status = true →
  WIFSIGNALED status = false ∧ WIFSTOPPED status = false.
Proof.
  unfold WIFSIGNALED, WIFEXITED, WIFSTOPPED, WTERMSIG.
  rewrite land_127, land_255.
  assert (status mod 128 = (status mod 256) mod 128) as Hmod
    by (symmetry; apply Z.mod_mod_divide; by exists 2).
  intros E%Z.eqb_eq. rewrite E. split; [done |].
  destruct (Z.eqb_spec (status mod 256) 127) as [E'|]; [| done].
  rewrite E' in Hmod. by rewrite E in Hmod.
Qed.

Lemma WIFSTOPPED_exclusive status :
  WIFSTOPPED status = true →
  WIFEXITED status = false ∧ WIFSIGNALED status = false.
Proof.
  unfold WIFSIGNALED, WIFEXITED, WIFSTOPPED, WTERMSIG.
  rewrite land_127, land_255.
  assert (status mod 128 = (status mod 256) mod 128) as Hmod
    by (symmetry; apply Z.mod_mod_divide; by exists 2).
  intros E%Z.eqb_eq. rewrite E in Hmod.
  change (127 mod 128) with 127 in Hmod. by rewrite Hmod.
Qed.

Lemma run_cons cf l ls cf1 :
  step cf l = Some cf1 → run cf (l :: ls) = run cf1 ls.
Proof. intros H. cbn [run]. by rewrite H. Qed.

Lemma addjob_registered p st cmd w i J :
  1 ≤ p → first_pid (jobs w) 0 = Some (i, J) →
  addjob p st cmd w = Ret true (registered w i p st cmd).
Proof. apply addjob_fills. Qed.

Lemma launch_step w argv bg cmd child i J :
  argv ≠ [] → builtin_cmd argv = None → 1 ≤ child →
  first_pid (jobs w) 0 = Some (i, J) →
  step (Prompt, w) (Line argv bg cmd child)
  = Some (if bg then AckBg child cmd else WaitFg child,
          registered w i child (if bg then BG else FG) cmd).
Proof.
  intros Hargv Hbuiltin Hchild Hfree. unfold step.
  cbn [fst snd transition]. unfold eval.
  destruct argv as [|a0 argv]; [done |]. rewrite Hbuiltin.
  destruct (Z.eqb_spec child 0); [lia |].
  destruct bg; simpl; unfold mbind, M_bind;
    by rewrite (addjob_registered _ _ _ _ i J).
Qed.

Lemma sigchld_exited w p i J status :
  first_pid (jobs w) p = Some (i, J) → 1 ≤ p →
  WIFEXITED status = true →
  sigchld_handler [(p, status)] w = Ret tt (reaped_slot w i).
Proof.
  intros Hfound Hp Hexit.
  destruct (WIFEXITED_exclusive _ Hexit) as [Hsig Hstop].
  cbn [sigchld_handler]. destruct (Z.gtb_spec p 0); [| lia].
  unfold sigchld_round. rewrite Hexit, Hsig, Hstop. unfold_m.
  by rewrite (deletejob_clears p w i J).
Qed.

Lemma sigchld_stopped w p i J status name :
  first_pid (jobs w) p = Some (i, J) → 1 ≤ p →
  WIFSTOPPED status = true →
  signame !! Z.to_nat (WSTOPSIG status) = Some name →
  sigchld_handler [(p, status)] w
  = Ret tt (World (set_state i ST (jobs w)) (nextjid w) (verbose w)
                  (out w ++ stopped_notice J name)).
Proof.
  intros Hfound Hp Hstop Hname.
  destruct (WIFSTOPPED_exclusive _ Hstop) as [Hexit Hsig].
  assert (getjobpid (jobs w) p = Some i) as Hget
    by (apply getjobpid_Some; eauto).
  pose proof (first_pid_Some _ _ _ _ Hfound) as [Hi HJ].
  cbn [sigchld_handler]. destruct (Z.gtb_spec p 0); [| lia].
  unfold sigchld_round. rewrite Hexit, Hsig, Hstop, Hname.
  unfold sio_putl, sio_puts. unfold_m. rewrite Hget. simpl.
  rewrite pid2jid_set_state, (pid2jid_first _ _ i J) by done.
  rewrite <- HJ. unfold stopped_notice, add_out, set_jobs. simpl.
  by rewrite <- !app_assoc.
Qed.

Lemma no_fg_fgpid js : no_fg js → fgpid js = 0.
Proof.
  intros Hno. apply fgpid_no_live_fg. intros i J Hi HJ. by destruct (Hno i J).
Qed.

Lemma waitfg_blocks p w :
  fgpid (jobs w) = p → step (WaitFg p, w) (Go None) = Some (WaitFg p, w).
Proof.
  intros Hfg. unfold step. simpl. unfold waitfg. unfold_m.
  by rewrite Hfg, Z.eqb_refl.
Qed.

Lemma waitfg_returns p w :
  fgpid (jobs w) ≠ p → step (WaitFg p, w) (Go None) = Some (Prompt, w).
Proof.
  intros Hfg. unfold step. simpl. unfold waitfg. unfold_m.
  by destruct (Z.eqb_spec (fgpid (jobs w)) p).
Qed.

Lemma chld_step c w reaped w' :
  running c = true → sigchld_handler reaped w = Ret tt w' →
  step (c, w) (Chld reaped) = Some (c, w').
Proof.
  intros Hc Hw. unfold step. cbn [fst snd transition]. rewrite Hc.
  cbn [mbind option_bind]. unfold mbind, M_bind. by rewrite Hw.
Qed.

Lemma tstp_step c w :
  running c = true →
  step (c, w) Tstp
  = Some (c, if fgpid (jobs w) =? 0 then w
             else add_out (Kill (- fgpid (jobs w)) SIGTSTP) w).
Proof.
  intros Hc. unfold step. cbn [fst snd transition]. rewrite Hc.
  cbn [mbind option_bind]. unfold mbind, M_bind.
  by rewrite sigtstp_handler_eq.
Qed.

(** A command that is not built in, typed without [&] while no slot is in
    state [FG] and one is free: the job is registered as [FG] under the
    child's pid and the control loop stays in [waitfg]; once SIGCHLD reports
    that the child has exited, the slot is cleared without any output and
    the control loop is back at its prompt. *)
Theorem foreground_job_until_exit
    (w : world) (argv : list string) (cmd : string) (child status : Z)
    (i : nat) (J : Job) :
  argv ≠ [] → builtin_cmd argv = None → 1 ≤ child →
  no_fg (jobs w) → getjobpid (jobs w) child = None →
  first_pid (jobs w) 0 = Some (i, J) →
  WIFEXITED status = true →
  run (Prompt, w) [Line argv false cmd child; Go None]
    = Some (WaitFg child, registered w i child FG cmd)
  ∧ run (Prompt, w) [Line argv false cmd child; Chld [(child, status)]; Go None]
    = Some (Prompt, reaped_slot (registered w i child FG cmd) i)
  ∧ jobs (reaped_slot (registered w i child FG cmd) i)
    = <[i := mkJob 0 0 UNDEF ""]> (jobs w)
  ∧ out (reaped_slot (registered w i child FG cmd) i)
    = out (registered w i child FG cmd).
Proof.
  intros Hargv Hbuiltin Hchild Hno Hfresh Hfree Hexit.
  pose proof (launch_step w argv false cmd child i J Hargv Hbuiltin Hchild Hfree)
    as Hlaunch.
  pose proof (first_pid_Some _ _ _ _ Hfree) as [Hi HJ].
  apply getjobpid_None in Hfresh as [?|Hfresh]; [lia |].
  pose proof (first_pid_fill _ _ _ _ (nextjid w) FG cmd Hi Hfresh) as Hnew.
  destruct (insert_fg_job (jobs w) i child (nextjid w) cmd Hno) as [Hone Hpid].
  assert (fgpid (jobs (registered w i child FG cmd)) = child) as Hfg.
  { apply (fgpid_the_fg_job _ i (mkJob child (nextjid w) FG cmd)); [| done | done].
    apply list_lookup_insert_eq. by eapply lookup_lt_Some. }
  assert (jobs (reaped_slot (registered w i child FG cmd) i)
          = <[i := mkJob 0 0 UNDEF ""]> (jobs w)) as Hjobs
    by apply list_insert_insert_eq.
  split_and!; [| | done | done].
  - rewrite (run_cons _ _ _ _ Hlaunch).
    by rewrite (run_cons _ _ _ _ (waitfg_blocks _ _ Hfg)).
  - rewrite (run_cons _ _ _ _ Hlaunch).
    assert (step (WaitFg child, registered w i child FG cmd)
                 (Chld [(child, status)])
            = Some (WaitFg child, reaped_slot (registered w i child FG cmd) i))
      as Hchld.
    { apply chld_step; [done |].
      by apply (sigchld_exited _ _ i (mkJob child (nextjid w) FG cmd)). }
    rewrite (run_cons _ _ _ _ Hchld).
    assert (fgpid (jobs (reaped_slot (registered w i child FG cmd) i)) ≠ child)
      as Hgone.
    { rewrite no_fg_fgpid; [lia |]. rewrite Hjobs.
      intros k K [(-> & <- & _)|(_ & Hk)]%list_lookup_insert_Some; [done |].
      by apply (Hno k K). }
    by rewrite (run_cons _ _ _ _ (waitfg_returns _ _ Hgone)).
Qed.

Lemma foreground_job_until_exit_witness :
  run (Prompt, w0) [Line ["/bin/ls"] false "/bin/ls" 300; Go None]
    = Some (WaitFg 300, registered w0 0 300 FG "/bin/ls")
  ∧ run (Prompt, w0) [Line ["/bin/ls"] false "/bin/ls" 300; Chld [(300, 0)]; Go None]
    = Some (Prompt, reaped_slot (registered w0 0 300 FG "/bin/ls") 0).
Proof.
  assert (builtin_cmd ["/bin/ls"] = None) as Hb by (vm_compute; reflexivity).
  assert (getjobpid (jobs w0) 300 = None) as Hfresh by (vm_compute; reflexivity).
  assert (first_pid (jobs w0) 0 = Some (0%nat, mkJob 0 0 UNDEF "")) as Hfree
    by (vm_compute; reflexivity).
  destruct (foreground_job_until_exit w0 ["/bin/ls"] "/bin/ls" 300 0 0 _
              ltac:(done) Hb ltac:(lia) (boot_inv false) Hfresh Hfree eq_refl)
    as (H1 & H2 & _).
  by split.
Defined.



Lemma set_state_at i s js J :
  js !! i = Some J →
  set_state i s js !! i = Some (mkJob (pid J) (jid J) s (cmdline J)).
Proof. intros Hi. unfold set_state. by rewrite list_lookup_alter_eq, Hi. Qed.

Lemma stop_only_fg js i J :
  js !! i = Some J → state J = FG → one_fg js → no_fg (set_state i ST js).
Proof.
  intros Hi HJ Hone k K [[-> HK]|[Hne Hk]]%set_state_lookup HFG.
  - congruence.
  - apply Hne. by apply (Hone k i K J).
Qed.

(** ctrl-z while the job of slot [i] is the foreground job: SIGTSTP goes to
    its process group; when SIGCHLD then reports the child stopped, the slot
    goes to [ST], the notice names job id, pid and the stopping signal, the
    job stays in the table, and [waitfg] returns to the prompt. *)
Theorem foreground_job_stopped
    (w : world) (p status : Z) (i : nat) (J : Job) (name : string) :
  first_pid (jobs w) p = Some (i, J) → 1 ≤ p →
  state J = FG → one_fg (jobs w) →
  WIFSTOPPED status = true →
  signame !! Z.to_nat (WSTOPSIG status) = Some name →
  run (WaitFg p, w) [Tstp; Chld [(p, status)]; Go None]
    = Some (Prompt,
            World (set_state i ST (jobs w)) (nextjid w) (verbose w)
                  (out w ++ Kill (- p) SIGTSTP :: stopped_notice J name))
  ∧ set_state i ST (jobs w) !! i = Some (mkJob p (jid J) ST (cmdline J)).
Proof.
  intros Hfound Hp HJ Hone Hstop Hname.
  pose proof (first_pid_Some _ _ _ _ Hfound) as [Hi Hpid].
  assert (fgpid (jobs w) = p) as Hfg
    by (rewrite <- Hpid; by apply (fgpid_the_fg_job _ i)).
  split; [| rewrite <- Hpid; by apply set_state_at].
  rewrite (run_cons _ _ _ _ (tstp_step (WaitFg p) w eq_refl)). rewrite Hfg.
  destruct (Z.eqb_spec p 0); [lia |].
  rewrite (run_cons _ _ _ _
             (chld_step (WaitFg p) _ _ _ eq_refl
                (sigchld_stopped (add_out (Kill (- p) SIGTSTP) w) p i J status name
                   Hfound Hp Hstop Hname))).
  cbn [jobs nextjid verbose out add_out].
  rewrite <- app_assoc. cbn [app].
  apply run_cons with (ls := []), waitfg_returns.
  cbn [jobs]. rewrite no_fg_fgpid; [lia |]. by apply (stop_only_fg _ _ J).
Qed.

Lemma foreground_job_stopped_witness :
  run fg_config [Tstp; Chld [(300, 5247)]; Go None]
  = Some (Prompt,
          World (set_state 0 ST (jobs fg_config.2)) (nextjid fg_config.2)
                (verbose fg_config.2)
                (out fg_config.2
                 ++ Kill (- 300) SIGTSTP
                    :: stopped_notice (mkJob 300 1 FG "/bin/cat") "TSTP")).
Proof.
  assert (first_pid (jobs fg_config.2) 300
          = Some (0%nat, mkJob 300 1 FG "/bin/cat")) as Hfound
    by (vm_compute; reflexivity).
  assert (run (boot false) [Line ["/bin/cat"] false "/bin/cat" 300]
          = Some fg_config) as Hrun by (vm_compute; reflexivity).
  pose proof (ctl_inv_one_fg _ _ (run_inv _ _ _ (boot_inv false) Hrun)) as Hone.
  exact (proj1 (foreground_job_stopped fg_config.2 300 5247 0 _ "TSTP"
                  Hfound ltac:(lia) eq_refl Hone eq_refl eq_refl)).
Defined.

(** ** ctrl-c on the foreground job *)

Lemma int_step c w :
  running c = true →
  step (c, w) Int
  = Some (c, if fgpid (jobs w) =? 0 then w
             else add_out (Kill (- fgpid (jobs w)) SIGINT) w).
Proof.
  intros Hc. unfold step. cbn [fst snd transition]. rewrite Hc.
  cbn [mbind option_bind]. unfold mbind, M_bind.
  by rewrite sigint_handler_eq.
Qed.

Lemma clear_only_fg js i J :
  js !! i = Some J → state J = FG → one_fg js → no_fg (<[i := clearjob J]> js).
Proof.
  intros Hi HJ Hone k K [(-> & <- & _)|[Hne Hk]]%list_lookup_insert_Some HFG.
  - discriminate HFG.
  - apply Hne. by apply (Hone i k J K).
Qed.

(** ctrl-c while the job of slot [i] is the foreground job: SIGINT goes to
    its process group; when SIGCHLD then reports the child killed by a
    signal, the notice with job id and pid is written, the slot is cleared,
    [nextjid] is one above the largest job id left, and [waitfg] returns to
    the prompt. *)
Theorem foreground_job_interrupted
    (w : world) (p status : Z) (i : nat) (J : Job) :
  first_pid (jobs w) p = Some (i, J) → 1 ≤ p →
  state J = FG → one_fg (jobs w) →
  WIFSIGNALED status = true →
  run (WaitFg p, w) [Int; Chld [(p, status)]; Go None]
    = Some (Prompt,
            World (<[i := clearjob J]> (jobs w))
                  (maxjid (<[i := clearjob J]> (jobs w)) + 1) (verbose w)
                  (out w ++ Kill (- p) SIGINT :: terminated_notice J))
  ∧ no_fg (<[i := clearjob J]> (jobs w)).
Proof.
  intros Hfound Hp HJ Hone Hsig.
  pose proof (first_pid_Some _ _ _ _ Hfound) as [Hi Hpid].
  assert (fgpid (jobs w) = p) as Hfg
    by (rewrite <- Hpid; by apply (fgpid_the_fg_job _ i)).
  pose proof (clear_only_fg _ _ _ Hi HJ Hone) as Hno.
  split; [| done].
  rewrite (run_cons _ _ _ _ (int_step (WaitFg p) w eq_refl)). rewrite Hfg.
  destruct (Z.eqb_spec p 0); [lia |].
  rewrite (run_cons _ _ _ _
             (chld_step (WaitFg p) _ _ _ eq_refl
                (sigchld_signaled (add_out (Kill (- p) SIGINT) w) p i J status
                   Hfound Hp Hsig))).
  cbn [jobs nextjid verbose out add_out].
  rewrite <- app_assoc. cbn [app]. unfold terminated_notice. rewrite Hpid.
  apply run_cons with (ls := []), waitfg_returns.
  cbn [jobs]. rewrite no_fg_fgpid; [lia | done].
Qed.

Lemma foreground_job_interrupted_witness :
  run fg_config [Int; Chld [(300, 2)]; Go None]
  = Some (Prompt,
          World (<[0%nat := clearjob (mkJob 300 1 FG "/bin/cat")]> (jobs fg_config.2))
                (maxjid (<[0%nat := clearjob (mkJob 300 1 FG "/bin/cat")]>
                           (jobs fg_config.2)) + 1)
                (verbose fg_config.2)
                (out fg_config.2
                 ++ Kill (- 300) SIGINT
                    :: terminated_notice (mkJob 300 1 FG "/bin/cat"))).
Proof.
  assert (first_pid (jobs fg_config.2) 300
          = Some (0%nat, mkJob 300 1 FG "/bin/cat")) as Hfound
    by (vm_compute; reflexivity).
  assert (run (boot false) [Line ["/bin/cat"] false "/bin/cat" 300]
          = Some fg_config) as Hrun by (vm_compute; reflexivity).
  pose proof (ctl_inv_one_fg _ _ (run_inv _ _ _ (boot_inv false) Hrun)) as Hone.
  exact (proj1 (foreground_job_interrupted fg_config.2 300 2 0 _
                  Hfound ltac:(lia) eq_refl Hone eq_refl)).
Defined.

(** ** [fg] on a stopped or background job *)

Lemma lookup_designated w cmd0 tok i J :
  jobs w !! i = Some J →
  pid J ≤ INT_MAX → jid J ≤ INT_MAX →
  getjobpid (jobs w) (pid J) = Some i →
  tok = fmt_d (pid J)
  ∨ (tok = String "%" (fmt_d (jid J)) ∧ getjobjid (jobs w) (jid J) = Some i) →
  do_bgfg_lookup [cmd0; tok] w = Ret (Some i) w.
Proof.
  intros Hi Hpmax Hjmax Hpid [->|[-> Hjid]].
  - pose proof Hpid as [Hp _]%getjobpid_Some.
    apply lookup_by_pid.
    + apply digit_not_percent, fmt_d_head, Hp.
    + rewrite atoi_fmt_d; lia.
    + by rewrite atoi_fmt_d.
  - pose proof Hjid as [Hj _]%getjobjid_Some.
    apply lookup_by_jid.
    + reflexivity.
    + apply (fmt_d_head _ Hj).
    + simpl. by rewrite atoi_fmt_d.
Qed.

Lemma prompt_no_fg v ls w :
  run (boot v) ls = Some (Prompt, w) → no_fg (jobs w).
Proof. intros Hrun. apply (run_inv _ _ _ (boot_inv v) Hrun). Qed.

Lemma resume_only_fg js i J :
  js !! i = Some J → no_fg js →
  fgpid (set_state i FG js) = pid J.
Proof.
  intros Hi Hno.
  apply (fgpid_the_fg_job _ i (mkJob (pid J) (jid J) FG (cmdline J)));
    [by apply set_state_at | done |].
  apply (only_slot_one_fg _ i).
  intros k K [[-> _]|[_ Hk]]%set_state_lookup HK; [done |].
  by destruct (Hno k K).
Qed.



(** ** Children the table does not know *)

(** A reaped child under whose pid no job is found: after a normal exit
    nothing changes and nothing is written; after a fatal signal the notice
    is written with job id 0 and the table is as it was; and when the child
    is reported stopped, the handler writes through the null [currjob]. *)
Theorem sigchld_untracked_child (w : world) (p status : Z) :
  0 < p → getjobpid (jobs w) p = None →
  (WIFEXITED status = true → sigchld_handler [(p, status)] w = Ret tt w)
  ∧ (WIFSIGNALED status = true →
       sigchld_handler [(p, status)] w
       = Ret tt (World (jobs w) (nextjid w) (verbose w)
                       (out w ++ [ Write "Job ["; Write "0"; Write "] (";
                                   Write (sio_ltoa p 10);
                                   Write ") terminated by signal SIGINT";
                                   Write nl ])))
  ∧ (WIFSTOPPED status = true → sigchld_handler [(p, status)] w = Fault w).
Proof.
  intros Hp Hnone.
  pose proof Hnone as [?|Hfirst]%getjobpid_None; [lia |].
  assert (pid2jid (jobs w) p = 0) as Hjid.
  { unfold pid2jid. destruct (p <? 1); [done |]. by rewrite Hfirst. }
  cbn [sigchld_handler]. destruct (Z.gtb_spec p 0); [| lia].
  unfold sigchld_round. split_and!.
  - intros Hexit. destruct (WIFEXITED_exclusive _ Hexit) as [-> ->].
    rewrite Hexit. unfold_m.
    by rewrite (deletejob_missing p w).
  - intros Hsig. destruct (WIFSIGNALED_exclusive _ Hsig) as [-> ->].
    rewrite Hsig. unfold sio_putl, sio_puts. unfold_m. rewrite Hjid.
    match goal with
    | |- context [deletejob p ?w1] => rewrite (deletejob_missing p w1) by done
    end.
    unfold add_out. simpl. by rewrite <- !app_assoc.
  - intros Hstop. destruct (WIFSTOPPED_exclusive _ Hstop) as [-> ->].
    rewrite Hstop. unfold_m. by rewrite Hnone.
Qed.

Lemma sigchld_untracked_child_witness :
  sigchld_handler [(400, 0)] w0 = Ret tt w0
  ∧ sigchld_handler [(400, 5247)] w0 = Fault w0.
Proof.
  assert (getjobpid (jobs w0) 400 = None) as Hnone by (vm_compute; reflexivity).
  destruct (sigchld_untracked_child w0 400 0 ltac:(lia) Hnone) as (Hexit & _).
  destruct (sigchld_untracked_child w0 400 5247 ltac:(lia) Hnone)
    as (_ & _ & Hstop).
  split; [by apply Hexit | by apply Hstop].
Defined.

(** ** Draining the pending children *)

(** One run of [sigchld_handler] handles the reported children in order:
    handling [l1] followed by [l2] is handling [l1] and then, unless the
    shell is gone, [l2] - as long as [waitpid] returned positive pids in
    [l1]; at the first result that is not positive the loop ends and what
    follows is left alone. *)
Theorem sigchld_handler_drains (l1 l2 : list (Z * Z)) (w : world) :
  Forall (λ r, 0 < r.1) l1 →
  sigchld_handler (l1 ++ l2) w
    = (sigchld_handler l1 ≫= λ _, sigchld_handler l2) w
  ∧ (∀ p status, p ≤ 0 →
       sigchld_handler (l1 ++ (p, status) :: l2) w = sigchld_handler l1 w).
Proof.
  intros Hpos. revert w.
  induction Hpos as [|[p status] l1 Hp Hpos IH]; intros w.
  - split; [done |]. intros p status Hp. simpl.
    by destruct (Z.gtb_spec p 0); [lia |].
  - simpl in Hp. cbn [app sigchld_handler]. destruct (Z.gtb_spec p 0); [| lia].
    unfold mbind, M_bind in *.
    destruct (sigchld_round p status w) as [a w1| |]; [| done | done].
    apply IH.
Qed.

Lemma sigchld_handler_drains_witness :
  sigchld_handler ([(300, 0)] ++ [(301, 0)]) w0
  = (sigchld_handler [(300, 0)] ≫= λ _, sigchld_handler [(301, 0)]) w0.
Proof.
  exact (proj1 (sigchld_handler_drains [(300, 0)] [(301, 0)] w0
                  ltac:(repeat constructor; simpl; lia))).
Defined.

(** ** [jobs] while a child is reaped *)

(** [listjobs] in a state the shell reaches.  When no handler runs while it
    does, it prints for each live slot, in slot order, "[jid] (pid) ", then
    "Running ", "Foreground " or "Stopped ", then the command line, and
    nothing else.  But SIGCHLD is not blocked: when the handler reaps the job
    of slot [i] after the test of its pid and before the switch on its state,
    the round for slot [i] prints "[jid] (pid) ", then the internal-error
    text with state 0, then an empty command line. *)
Theorem listjobs_lines_unless_reaped
    (v : bool) (ls : list label) (cf : config) (jid_first : bool) :
  run (boot v) ls = Some cf →
  listjobs_racy jid_first (λ _, quiet) cf.2
  = Ret tt (World (jobs cf.2) (nextjid cf.2) (verbose cf.2)
                  (out cf.2 ++ (filter live (jobs cf.2) ≫= job_lines)))
  ∧ ∀ i J p status,
      first_pid (jobs cf.2) p = Some (i, J) → 1 ≤ p →
      WIFEXITED status = true →
      listjobs_slot jid_first (reap_before_switch p status) i cf.2
      = Ret tt (World (<[i := mkJob 0 0 UNDEF ""]> (jobs cf.2))
                      (maxjid (<[i := mkJob 0 0 UNDEF ""]> (jobs cf.2)) + 1)
                      (verbose cf.2)
                      (out cf.2
                       ++ [ Printf ("[" +:+ fmt_d (jid J) +:+ "] ("
                                    +:+ fmt_d p +:+ ") ");
                            Printf ("listjobs: Internal error: job["
                                    +:+ fmt_d (Z.of_nat i) +:+ "].state=0 ");
                            Printf "" ])).
Proof.
  intros Hrun. split.
  - rewrite <- (run_listjobs_lines v ls cf Hrun).
    pose proof (run_length _ _ _ Hrun) as Hlen.
    unfold listjobs_racy. rewrite <- Hlen.
    exact (listjobs_racy_loop_quiet jid_first (jobs cf.2) [] cf.2 eq_refl).
  - intros i J p status Hfound Hp Hexit.
    pose proof (first_pid_Some _ _ _ _ Hfound) as [Hi Hpid].
    set (head := Printf ("[" +:+ fmt_d (jid J) +:+ "] (" +:+ fmt_d p +:+ ") ")).
    pose proof (sigchld_exited (add_out head cf.2) p i J status Hfound Hp Hexit)
      as Hreap.
    assert (jobs (reaped_slot (add_out head cf.2) i) !! i
            = Some (mkJob 0 0 UNDEF "")) as Hgone
      by (apply list_lookup_insert_eq; by eapply lookup_lt_Some).
    unfold listjobs_slot.
    cbn [reap_before_switch at_test at_head in_head at_switch at_default
           at_cmdline].
    do 2 bind_step. destruct (Z.eqb_spec (pid J) 0) as [E|_]; [lia |].
    cbn [negb when]. do 4 bind_step.
    replace (jid (if jid_first then J else J)) with (jid J)
      by (by destruct jid_first).
    replace (pid (if jid_first then J else J)) with p by (by destruct jid_first).
    bind_step. fold head.
    rewrite (bind_Ret _ _ _ _ _ Hreap).
    bind_step. cbn [state]. repeat bind_step.
    unfold printf, emit, modify, reaped_slot, add_out. simpl.
    by rewrite <- !app_assoc.
Qed.

Lemma listjobs_lines_unless_reaped_witness :
  listjobs_racy true (λ _, quiet) stopped_config.2
  = Ret tt (World (jobs stopped_config.2) (nextjid stopped_config.2)
                  (verbose stopped_config.2)
                  (out stopped_config.2
                   ++ job_lines (mkJob 300 1 ST "/bin/cat")))
  ∧ listjobs_slot true (reap_before_switch 300 0) 0 stopped_config.2
    = Ret tt (World (<[0%nat := mkJob 0 0 UNDEF ""]> (jobs stopped_config.2))
                    (maxjid (<[0%nat := mkJob 0 0 UNDEF ""]>
                               (jobs stopped_config.2)) + 1)
                    (verbose stopped_config.2)
                    (out stopped_config.2
                     ++ [ Printf "[1] (300) ";
                          Printf "listjobs: Internal error: job[0].state=0 ";
                          Printf "" ])).
Proof.
  assert (run (boot false) [ Line ["/bin/cat"] false "/bin/cat" 300; Tstp;
                             Chld [(300, 5247)]; Go None ]
          = Some stopped_config) as Hrun by (vm_compute; reflexivity).
  assert (first_pid (jobs stopped_config.2) 300
          = Some (0%nat, mkJob 300 1 ST "/bin/cat")) as Hfound
    by (vm_compute; reflexivity).
  destruct (listjobs_lines_unless_reaped false _ _ true Hrun) as [Hquiet Hrace].
  split; [exact Hquiet |].
  exact (Hrace 0%nat _ 300 0 Hfound ltac:(lia) eq_refl).
Defined.

(** * Signal-safe output of numbers *)

Lemma sio_digit_code c : 0 ≤ c < 10 → code (sio_digit c) = c + 48.
Proof.
  intros Hc.
  assert (c = 0 ∨ c = 1 ∨ c = 2 ∨ c = 3 ∨ c = 4 ∨ c = 5 ∨ c = 6 ∨ c = 7
          ∨ c = 8 ∨ c = 9) as Hcases by lia.
  repeat (destruct Hcases as [->|Hcases]; [reflexivity |]). by subst.
Qed.

Lemma sio_ltoa_loop_value fuel v :
  0 ≤ v → (Z.to_nat v ≤ fuel)%nat →
  digits_value (sio_ltoa_loop fuel v 10) = v
  ∧ Forall (λ c, isdigit c = true) (sio_ltoa_loop fuel v 10)
  ∧ sio_ltoa_loop fuel v 10 ≠ [].
Proof.
  revert v. induction fuel as [|fuel IH]; intros v Hv Hfuel.
  - assert (v = 0) as -> by lia. by repeat constructor.
  - cbn [sio_ltoa_loop].
    pose proof (Z.quot_rem' v 10) as Hqr.
    pose proof (Z.rem_bound_pos v 10 Hv ltac:(lia)) as Hrem.
    pose proof (sio_digit_code _ Hrem) as Hcode.
    assert (0 ≤ v ÷ 10) as Hq by (apply Z.quot_pos; lia).
    assert (isdigit (sio_digit (Z.rem v 10)) = true) as Hdig
      by (unfold isdigit; rewrite Hcode; lia).
    destruct (Z.gtb_spec (v ÷ 10) 0) as [Hpos|Hzero].
    + destruct (IH (v ÷ 10)) as (Hval & Hall & _); [lia | lia |].
      split_and!; [| by constructor | done].
      cbn [digits_value]. rewrite Hval, Hcode. lia.
    + split_and!; [| by repeat constructor | done].
      cbn [digits_value]. rewrite Hcode. lia.
Qed.

Lemma atoi_digits_snoc acc l c :
  Forall (λ c, isdigit c = true) l → isdigit c = true →
  atoi_digits acc (string_of_list_ascii (l ++ [c]))
  = 10 * atoi_digits acc (string_of_list_ascii l) + (code c - 48).
Proof.
  intros Hl Hc. revert acc.
  induction Hl as [|d l Hd Hl IH]; intros acc; simpl.
  - by rewrite Hc.
  - rewrite Hd. apply IH.
Qed.

Lemma atoi_digits_rev l :
  Forall (λ c, isdigit c = true) l →
  atoi_digits 0 (string_of_list_ascii (rev l)) = digits_value l.
Proof.
  induction 1 as [|c l Hc Hl IH]; [done |].
  cbn [rev digits_value].
  rewrite atoi_digits_snoc; [lia | by apply Forall_rev | done].
Qed.

Lemma decimal_digit_head c rest :
  isdigit c = true → decimal (String c rest) = atoi_digits 0 (String c rest).
Proof.
  destruct c as [[] [] [] [] [] [] [] []]; try discriminate; reflexivity.
Qed.

Lemma sio_ltoa_eq v b :
  sio_ltoa v b = string_of_list_ascii (rev (sio_ltoa_loop (Z.to_nat v) v b)).
Proof.
  unfold sio_ltoa, sio_reverse. by rewrite list_ascii_of_string_of_list_ascii.
Qed.

Lemma sio_digit_code_neg c : - 10 < c ≤ 0 → code (sio_digit c) = 48 + c.
Proof.
  intros Hc.
  assert (c = 0 ∨ c = -1 ∨ c = -2 ∨ c = -3 ∨ c = -4 ∨ c = -5 ∨ c = -6
          ∨ c = -7 ∨ c = -8 ∨ c = -9) as Hcases by lia.
  repeat (destruct Hcases as [->|Hcases]; [reflexivity |]). by subst.
Qed.

(** [sio_ltoa] in base 10.  For [v >= 0] the string is the decimal numeral
    of [v]: it consists of decimal digits only, is not empty and denotes
    [v]; [atoi] reads [v] back from it when [v] is in the range of [int].
    For [v < 0] the loop runs once: the string is the single character with
    code [48 + v % 10], which is "0" for -10, "-" for -3 and "'" for -9; the
    sign and all other digits are lost. *)
Theorem sio_ltoa_decimal (v : Z) :
  (0 ≤ v →
     decimal (sio_ltoa v 10) = v
     ∧ Forall (λ c, isdigit c = true) (list_ascii_of_string (sio_ltoa v 10))
     ∧ sio_ltoa v 10 ≠ EmptyString
     ∧ (v ≤ INT_MAX → atoi (sio_ltoa v 10) = v))
  ∧ (v < 0 →
     ∃ c, sio_ltoa v 10 = String c EmptyString ∧ code c = 48 + Z.rem v 10).
Proof.
  rewrite sio_ltoa_eq. split.
  - intros Hv.
    destruct (sio_ltoa_loop_value (Z.to_nat v) v Hv ltac:(lia))
      as (Hval & Hall & Hne).
    rewrite list_ascii_of_string_of_list_ascii.
    assert (Forall (λ c, isdigit c = true) (rev (sio_ltoa_loop (Z.to_nat v) v 10)))
      as Hrev by (by apply Forall_rev).
    assert (decimal (string_of_list_ascii (rev (sio_ltoa_loop (Z.to_nat v) v 10)))
            = v) as Hdec.
    { rewrite <- Hval at 3. rewrite <- (atoi_digits_rev _ Hall).
      destruct (rev (sio_ltoa_loop (Z.to_nat v) v 10)) as [|c l] eqn:E.
      - apply (f_equal (λ l, rev l)) in E. rewrite rev_involutive in E.
        by destruct Hne.
      - apply decimal_digit_head. by inversion Hrev. }
    split_and!; [done | done | | ].
    + intros Hnil. destruct Hne.
      destruct (sio_ltoa_loop (Z.to_nat v) v 10) as [|c l] using rev_ind; [done |].
      rewrite rev_app_distr in Hnil. discriminate Hnil.
    + intros Hmax. rewrite atoi_decimal; rewrite Hdec; unfold INT_MAX in *; lia.
  - intros Hv. replace (Z.to_nat v) with 0%nat by lia.
    exists (sio_digit (Z.rem v 10)). split; [done |].
    apply sio_digit_code_neg.
    pose proof (Z.rem_bound_abs v 10 ltac:(lia)).
    pose proof (Z.rem_nonpos v 10 ltac:(lia) ltac:(lia)). lia.
Qed.

(** * Splitting the command line *)

Lemma append_String a (s t : string) : String a s +:+ t = String a (s +:+ t).
Proof. reflexivity. Qed.

Lemma append_Empty (t : string) : EmptyString +:+ t = t.
Proof. reflexivity. Qed.

Lemma append_assoc (a b c : string) : (a +:+ b) +:+ c = a +:+ (b +:+ c).
Proof.
  induction a as [|x a IH]; [done |]. rewrite !append_String. by f_equal.
Qed.

Lemma length_append (a b : string) :
  String.length (a +:+ b) = (String.length a + String.length b)%nat.
Proof.
  induction a as [|x a IH]; [done |]. rewrite append_String. simpl. by f_equal.
Qed.

Lemma lacks_append c a b : lacks c (a +:+ b) = lacks c a && lacks c b.
Proof.
  induction a as [|x a IH]; [done |].
  rewrite append_String. simpl. by rewrite IH, andb_assoc.
Qed.

Lemma strcpy_lacks s : lacks Ascii.zero s = true → strcpy s = s.
Proof.
  induction s as [|a s IH]; simpl; [done |].
  intros [Ha Hs]%andb_true_iff.
  destruct (Ascii.eqb a Ascii.zero); [done |]. by rewrite IH.
Qed.

Lemma set_last_space_snoc s c :
  set_last_space (s +:+ String c EmptyString) = s +:+ " ".
Proof.
  induction s as [|a s IH]; [done |].
  rewrite !append_String. cbn [set_last_space]. rewrite IH.
  destruct s; [done |]. by rewrite append_String.
Qed.

Lemma strchr_append c s rest :
  lacks c s = true → strchr c (s +:+ String c rest) = Some (s, rest).
Proof.
  induction s as [|a s IH].
  - intros _. rewrite append_Empty. simpl. by rewrite Ascii.eqb_refl.
  - rewrite append_String. simpl. intros [Ha Hs]%andb_true_iff.
    destruct (Ascii.eqb a c); [done |]. by rewrite (IH Hs).
Qed.

Lemma render_lacks t :
  token_ok t = true → lacks Ascii.zero (render t) = true.
Proof.
  destruct t as [s|s]; simpl.
  - by intros [[_ ?]%andb_true_iff _]%andb_true_iff.
  - intros [_ Hs]%andb_true_iff. by rewrite !lacks_append, Hs.
Qed.

Lemma spaced_lacks ts :
  forallb token_ok ts = true → lacks Ascii.zero (spaced ts) = true.
Proof.
  induction ts as [|t ts IH]; simpl; [done |].
  intros [Ht Hts]%andb_true_iff.
  rewrite !lacks_append, (render_lacks _ Ht), (IH Hts). done.
Qed.

Lemma concat_spaced t ts :
  String.concat " " (map render (t :: ts)) +:+ " " = spaced (t :: ts).
Proof.
  revert t. induction ts as [|u ts IH]; intros t.
  - done.
  - change (String.concat " " (map render (t :: u :: ts)))
      with (render t +:+ " " +:+ String.concat " " (map render (u :: ts))).
    rewrite !append_assoc, IH. done.
Qed.

Lemma skip_spaces_spaced ts :
  forallb token_ok ts = true → skip_spaces (spaced ts) = spaced ts.
Proof.
  destruct ts as [|[s|s] ts]; [done | |done].
  simpl.
  intros [[[[Hne Hsp]%andb_true_iff _]%andb_true_iff _]%andb_true_iff _]%andb_true_iff.
  destruct s as [|a s]; [done |]. rewrite append_String. simpl in *.
  by destruct (Ascii.eqb a " ").
Qed.

Lemma delimit_spaced t rest :
  token_ok t = true →
  ∃ rest', delimit (render t +:+ " " +:+ rest) = Some (text t, rest')
           ∧ skip_spaces rest' = skip_spaces rest.
Proof.
  destruct t as [s|s]; simpl.
  - intros [[[Hne Hsp]%andb_true_iff _]%andb_true_iff Hq]%andb_true_iff.
    exists rest. split; [| done].
    destruct s as [|a s]; [done |].
    rewrite <- (strchr_append " " (String a s) rest Hsp).
    rewrite !append_String. unfold char_at in Hq. simpl in Hq.
    destruct (Ascii.eqb_spec a "'") as [->|Ha]; [done |].
    destruct a as [[] [] [] [] [] [] [] []]; done.
  - intros [Hq _]%andb_true_iff.
    exists (" " +:+ rest). split; [| done].
    rewrite !append_assoc, append_String, append_Empty. simpl.
    by apply strchr_append.
Qed.

Lemma parseline_loop_spaced fuel ts :
  forallb token_ok ts = true → (length ts ≤ fuel)%nat →
  parseline_loop fuel (spaced ts) = map text ts.
Proof.
  revert fuel. induction ts as [|t ts IH]; intros fuel Hok Hfuel.
  - by destruct fuel.
  - destruct fuel as [|fuel]; [simpl in Hfuel; lia |].
    simpl in Hok. apply andb_true_iff in Hok as [Ht Hts].
    destruct (delimit_spaced t (spaced ts) Ht) as (rest' & Hd & Hskip).
    cbn [parseline_loop spaced map]. rewrite Hd, Hskip.
    rewrite (skip_spaces_spaced _ Hts), IH; [done | done | simpl in Hfuel; lia].
Qed.

Lemma spaced_length ts : (length ts ≤ String.length (spaced ts))%nat.
Proof.
  induction ts as [|t ts IH]; simpl; [lia |].
  rewrite !length_append. simpl. lia.
Qed.

(** A line of well-formed arguments is split into exactly these arguments,
    quotes removed.  A last argument that starts with [&] is dropped and
    asks for a background job.  With [MAXARGS] arguments or more the
    function writes past the end of [argv]. *)
Theorem parseline_arguments (ts : list token) (t : token) :
  forallb token_ok (ts ++ [t]) = true →
  (String.length (command_line (ts ++ [t])) < MAXLINE)%nat →
  parseline (command_line (ts ++ [t])) =
    if bool_decide (MAXARGS ≤ S (length ts))%nat then None
    else if Ascii.eqb (char_at (text t) 0) "&" then Some (map text ts, true)
    else Some (map text ts ++ [text t], false).
Proof.
  intros Hok Hlen.
  assert (∃ u us, ts ++ [t] = u :: us) as (u & us & Hcons)
    by (destruct ts; simpl; eauto).
  pose proof (spaced_lacks _ Hok) as Hnul.
  pose proof (spaced_length (ts ++ [t])) as Hfuel.
  revert Hlen. unfold parseline, command_line.
  rewrite Hcons in Hnul, Hfuel |- *. rewrite <- concat_spaced in Hnul, Hfuel.
  rewrite lacks_append in Hnul. apply andb_true_iff in Hnul as [Hnul _].
  rewrite length_append in Hfuel.
  change (String.length " ") with 1%nat in Hfuel.
  set (body := String.concat " " (map render (u :: us))) in *.
  intros Hlen. rewrite length_append in Hlen. simpl in Hlen.
  rewrite strcpy_lacks by (by rewrite lacks_append, Hnul).
  rewrite length_append. simpl String.length.
  rewrite bool_decide_eq_false_2 by (unfold MAXLINE in *; lia).
  unfold nl. rewrite set_last_space_snoc. subst body.
  rewrite concat_spaced, <- Hcons.
  rewrite (skip_spaces_spaced _ Hok).
  rewrite parseline_loop_spaced; [| done |].
  2:{ rewrite Hcons. lia. }
  rewrite map_app, length_app, length_map. simpl length.
  replace (length ts + 1)%nat with (S (length ts)) by lia.
  case_bool_decide; [done |].
  change (map text [t]) with [text t].
  rewrite last_snoc, removelast_last. done.
Qed.

Lemma parseline_arguments_witness :
  parseline (command_line ([Bare "/bin/sleep"; Quoted "1 0"] ++ [Bare "&"]))
  = Some (["/bin/sleep"; "1 0"], true).
Proof.
  assert (forallb token_ok ([Bare "/bin/sleep"; Quoted "1 0"] ++ [Bare "&"])
          = true) as Hok by (vm_compute; reflexivity).
  assert (String.length
            (command_line ([Bare "/bin/sleep"; Quoted "1 0"] ++ [Bare "&"]))
          < MAXLINE)%nat as Hlen by (apply Nat.ltb_lt; vm_compute; reflexivity).
  exact (parseline_arguments _ _ Hok Hlen).
Defined.

Lemma strchr_length c s arg rest :
  strchr c s = Some (arg, rest) → (String.length rest < String.length s)%nat.
Proof.
  revert arg. induction s as [|a s IH]; intros arg; simpl; [done |].
  destruct (Ascii.eqb a c); [intros [= _ <-]; lia |].
  destruct (strchr c s) as [[arg' rest']|]; [| done].
  intros [= _ <-]. specialize (IH _ eq_refl). lia.
Qed.

Lemma skip_spaces_length s :
  (String.length (skip_spaces s) ≤ String.length s)%nat.
Proof.
  induction s as [|a s IH]; simpl; [lia |].
  destruct (Ascii.eqb a " "); simpl; lia.
Qed.

Lemma delimit_length buf arg rest :
  delimit buf = Some (arg, rest) →
  (String.length rest < String.length buf)%nat.
Proof.
  unfold delimit. intros H.
  assert (strchr " " buf = Some (arg, rest)
          ∨ ∃ b, buf = String "'" b ∧ strchr "'" b = Some (arg, rest))
    as [H'|(b & -> & H')].
  { destruct buf as [|a b]; [by left |].
    destruct a as [[] [] [] [] [] [] [] []]; eauto. }
  - by apply strchr_length in H'.
  - apply strchr_length in H'. simpl. lia.
Qed.

(** More fuel than the length of [buf] changes nothing. *)
Lemma parseline_loop_fuel fuel fuel' buf :
  (String.length buf ≤ fuel)%nat → (String.length buf ≤ fuel')%nat →
  parseline_loop fuel buf = parseline_loop fuel' buf.
Proof.
  revert fuel' buf. induction fuel as [|fuel IH]; intros fuel' buf H1 H2.
  - destruct buf; [| simpl in H1; lia]. by destruct fuel'.
  - destruct fuel' as [|fuel'].
    { destruct buf; [done | simpl in H2; lia]. }
    simpl. destruct (delimit buf) as [[arg rest]|] eqn:Hd; [| done].
    apply delimit_length in Hd. pose proof (skip_spaces_length rest).
    f_equal. apply IH; lia.
Qed.

Lemma blank_lacks n c :
  c ≠ Ascii.zero →
  lacks Ascii.zero (string_of_list_ascii (replicate n " "%char)
                    +:+ String c EmptyString) = true.
Proof.
  intros Hc. induction n as [|n IH]; simpl.
  - rewrite ?append_Empty. simpl. by destruct (Ascii.eqb_spec c Ascii.zero).
  - by rewrite ?append_String.
Qed.

Lemma skip_spaces_blank n :
  skip_spaces (string_of_list_ascii (replicate n " "%char) +:+ " ")
  = EmptyString.
Proof. induction n as [|n IH]; [done |]. simpl. by rewrite ?append_String. Qed.

Lemma length_blank n :
  String.length (string_of_list_ascii (replicate n " "%char)) = n.
Proof. induction n as [|n IH]; simpl; [done | by rewrite IH]. Qed.

Lemma parseline_loop_empty fuel : parseline_loop fuel EmptyString = [].
Proof. by destruct fuel. Qed.

(** A line of spaces only gives no argument at all, and so does a line whose
    single other character is its last one, newline or not. *)
Theorem parseline_blank_line (n : nat) (c : ascii) :
  c ≠ Ascii.zero → (n + 1 < MAXLINE)%nat →
  parseline (string_of_list_ascii (replicate n " "%char)
             +:+ String c EmptyString) = Some ([], true).
Proof.
  intros Hc Hn. unfold parseline.
  rewrite (strcpy_lacks _ (blank_lacks n c Hc)).
  rewrite set_last_space_snoc, skip_spaces_blank, length_append.
  rewrite bool_decide_eq_false_2.
  - by rewrite parseline_loop_empty.
  - rewrite length_blank. simpl. unfold MAXLINE in *. lia.
Qed.

Lemma parseline_blank_line_witness :
  parseline (string_of_list_ascii (replicate 3 " "%char) +:+ nl)
  = Some ([], true).
Proof.
  assert (ascii_of_nat 10 ≠ Ascii.zero) as Hc by discriminate.
  assert (3 + 1 < MAXLINE)%nat as Hn by (unfold MAXLINE; lia).
  exact (parseline_blank_line 3 _ Hc Hn).
Defined.

(** [parseline] never looks at the last character of the line, newline or
    not: it is overwritten by a space before anything is read.  A last line
    that does not end in a newline loses its last character. *)
Theorem parseline_last_character (s : string) (c c' : ascii) :
  lacks Ascii.zero s = true → c ≠ Ascii.zero → c' ≠ Ascii.zero →
  parseline (s +:+ String c EmptyString)
  = parseline (s +:+ String c' EmptyString).
Proof.
  intros Hs Hc Hc'. unfold parseline.
  assert (∀ d, d ≠ Ascii.zero →
               lacks Ascii.zero (s +:+ String d EmptyString) = true) as Hd.
  { intros d Hne. rewrite lacks_append, Hs. simpl.
    by destruct (Ascii.eqb_spec d Ascii.zero). }
  rewrite !strcpy_lacks by auto.
  by rewrite !set_last_space_snoc, !length_append.
Qed.

Lemma parseline_last_character_witness :
  parseline "/bin/ls" = parseline ("/bin/l" +:+ nl).
Proof.
  assert (lacks Ascii.zero "/bin/l" = true) as Hs by reflexivity.
  assert ("s"%char ≠ Ascii.zero) as Hc by discriminate.
  assert (ascii_of_nat 10 ≠ Ascii.zero) as Hc' by discriminate.
  exact (parseline_last_character "/bin/l" "s" (ascii_of_nat 10) Hs Hc Hc').
Defined.

(** * Reversing a string in place *)

Lemma insert_middle {A} (l1 l2 : list A) (x y : A) (n : nat) :
  n = length l1 → <[n := y]> (l1 ++ x :: l2) = l1 ++ y :: l2.
Proof. intros ->. by rewrite <- (Nat.add_0_r (length l1)), insert_app_r. Qed.

Lemma sio_reverse_loop_rev fuel (pre mid post : list ascii) :
  (length mid ≤ fuel)%nat →
  sio_reverse_loop fuel (Z.of_nat (length pre))
    (Z.of_nat (length pre + length mid) - 1) (pre ++ mid ++ post)
  = pre ++ rev mid ++ post.
Proof.
  revert pre mid post. induction fuel as [|fuel IH]; intros pre mid post Hfuel.
  - destruct mid; [done | simpl in Hfuel; lia].
  - cbn [sio_reverse_loop].
    destruct mid as [|a mid].
    { rewrite (proj2 (Z.ltb_ge _ _)) by (simpl; lia). done. }
    destruct mid as [|b mid _] using rev_ind.
    { rewrite (proj2 (Z.ltb_ge _ _)) by (simpl; lia). done. }
    rewrite length_cons, length_app in *. simpl length in *.
    destruct (Z.ltb_spec (Z.of_nat (length pre))
                (Z.of_nat (length pre + S (length mid + 1)) - 1)); [| lia].
    replace (Z.to_nat (Z.of_nat (length pre + S (length mid + 1)) - 1))
      with (length (pre ++ a :: mid)) by (rewrite length_app; simpl; lia).
    rewrite Nat2Z.id.
    replace (pre ++ (a :: mid ++ [b]) ++ post)
      with ((pre ++ a :: mid) ++ b :: post)
      by (by simplify_list_eq).
    rewrite (list_lookup_middle (pre ++ a :: mid) post b _ eq_refl).
    rewrite <- (app_assoc pre), <- app_comm_cons.
    rewrite (list_lookup_middle pre _ a _ eq_refl).
    rewrite (insert_middle pre _ a b _ eq_refl).
    replace (pre ++ b :: mid ++ b :: post)
      with ((pre ++ b :: mid) ++ b :: post) by (by simplify_list_eq).
    rewrite (insert_middle (pre ++ b :: mid) post b a)
      by (by rewrite !length_app).
    replace ((pre ++ b :: mid) ++ a :: post)
      with ((pre ++ [b]) ++ mid ++ ([a] ++ post)) by (by simplify_list_eq).
    replace (Z.of_nat (length pre) + 1) with (Z.of_nat (length (pre ++ [b])))
      by (rewrite length_app; simpl; lia).
    replace (Z.of_nat (length pre + S (length mid + 1)) - 1 - 1)
      with (Z.of_nat (length (pre ++ [b]) + length mid) - 1)
      by (rewrite length_app; simpl; lia).
    rewrite IH by lia.
    rewrite <- !app_assoc. simpl. rewrite rev_app_distr. simpl.
    by rewrite <- !app_assoc.
Qed.

(** The swap loop of [sio_reverse] reverses the string. *)
Theorem sio_reverse_in_place_reverses (s : string) :
  sio_reverse_in_place s = sio_reverse s.
Proof.
  unfold sio_reverse_in_place, sio_reverse. f_equal.
  pose proof (sio_reverse_loop_rev (length (list_ascii_of_string s)) []
                (list_ascii_of_string s) [] (le_n _)) as H.
  by rewrite !app_nil_r in H.
Qed.
